(** * Census data-access layer of the Long Beach dashboard

    A shallow embedding of [fetch_census_data.py]: the geography and
    dataset resolver, the request executor with its ZCTA retry handling,
    the two TTL caches, the multi-year and multi-variable fetchers and the
    tidy reshaper, followed by the properties established about them.

    Conventions.
    - Python [str] values are Rocq strings; the text handled here (variable
      codes, geography clauses, error bodies) is ASCII, and the case and
      whitespace functions below are the ASCII part of Python's.
    - Python [dict]s used as maps ([geo], [params], the caches) are
      [gmap]s; the [lru_cache] store keeps its recency order in a list.
    - [datetime] values are integers counting microseconds, the resolution
      of [datetime]; a [timedelta] of [m] minutes is [m * 60000000].
    - A [DataFrame] is an object on a heap: functions return references,
      [df.copy()] allocates, and two references may alias one table.
    - Exceptions are values of [Exn]; a call returns [Ok v] or [Raise e]
      together with the final state. *)

From Stdlib Require Import ZArith QArith Qcanon String Ascii List DecimalString Permutation.
From stdpp Require Import gmap strings list fin_maps sorting.

Close Scope Q_scope.
Close Scope Qc_scope.
Open Scope string_scope.
Open Scope list_scope.
Open Scope nat_scope.

(** ** Python string primitives *)

Module PyStr.

Local Open Scope nat_scope.

Definition code (a : ascii) : nat := nat_of_ascii a.

(** [str.isspace] on one ASCII character. *)
Definition is_space (a : ascii) : bool :=
  let n := code a in
  ((9 <=? n) && (n <=? 13)) || ((28 <=? n) && (n <=? 32)).

Definition lower_ascii (a : ascii) : ascii :=
  let n := code a in
  if (65 <=? n) && (n <=? 90) then ascii_of_nat (n + 32) else a.

Definition upper_ascii (a : ascii) : ascii :=
  let n := code a in
  if (97 <=? n) && (n <=? 122) then ascii_of_nat (n - 32) else a.

Fixpoint map_string (f : ascii -> ascii) (s : string) : string :=
  match s with
  | EmptyString => EmptyString
  | String a r => String (f a) (map_string f r)
  end.

(** [s.lower()] and [s.upper()]. *)
Definition lower (s : string) : string := map_string lower_ascii s.
Definition upper (s : string) : string := map_string upper_ascii s.

Fixpoint lstrip (s : string) : string :=
  match s with
  | EmptyString => EmptyString
  | String a r => if is_space a then lstrip r else s
  end.

Fixpoint rstrip (s : string) : string :=
  match s with
  | EmptyString => EmptyString
  | String a r =>
      match rstrip r with
      | EmptyString => if is_space a then EmptyString else String a EmptyString
      | r' => String a r'
      end
  end.

(** [s.strip()]. *)
Definition strip (s : string) : string := rstrip (lstrip s).

(** [s.startswith(p)]. *)
Definition startswith (s p : string) : bool := String.prefix p s.

(** [sub in s]. *)
Fixpoint contains (sub s : string) : bool :=
  String.prefix sub s ||
  match s with
  | EmptyString => false
  | String _ r => contains sub r
  end.

(** [sep.join(l)]. *)
Fixpoint join (sep : string) (l : list string) : string :=
  match l with
  | [] => EmptyString
  | [x] => x
  | x :: r => String.append x (String.append sep (join sep r))
  end.

(** [str(n)] for an [int]. *)
Definition of_int (n : Z) : string := NilZero.string_of_int (Z.to_int n).

(** Truthiness of an optional string: [None] and [""] are false. *)
Definition truthy (o : option string) : bool :=
  match o with
  | Some (String _ _) => true
  | _ => false
  end.

End PyStr.

(** ** Configuration constants *)

Definition BASE : string := "https://api.census.gov/data".

Definition _TTL_MINUTES : Z := 60.

(** A geography is the [dict] passed as [geo]: optional keys ["for"] and
    ["in"]. *)
Definition CITY_GEO : gmap string string :=
  <["for" := "place:43000"]> (<["in" := "state:06"]> ∅).

Definition US_GEO : gmap string string := <["for" := "us:1"]> ∅.

Definition ZCTA_OVERRIDES : gmap string string :=
  <["DP05_0001E" := "B01003_001E"]> (<["DP05_0018E" := "B01002_001E"]> ∅).


(** ** Geography and dataset resolver *)

Definition is_zcta_geo (geo : gmap string string) : bool :=
  PyStr.startswith (default "" (geo !! "for")) "zip code tabulation area:".

Definition zcta_geo (z : string) : gmap string string :=
  <["for" := "zip code tabulation area:" +:+ z]> ∅.

Definition dataset_for (code : string) : string :=
  let c := PyStr.upper (PyStr.strip code) in
  if PyStr.startswith c "DP" then "acs/acs5/profile" else "acs/acs5".

Definition resolve_code_for_geo (code : string) (geo : gmap string string) : string :=
  let c := PyStr.strip code in
  if is_zcta_geo geo then
    match ZCTA_OVERRIDES !! c with
    | Some c' => c'
    | None => c
    end
  else c.

(** The first two statements of [call_api] and of [call_api_ttl]: the
    effective code and the dataset it is requested from. *)
Definition resolve (code : string) (geo : gmap string string) : string * string :=
  let code_eff := resolve_code_for_geo code geo in
  let dataset := dataset_for code_eff in
  (code_eff, dataset).

Definition _geo_key (geo : gmap string string) : option string * option string :=
  (geo !! "for", geo !! "in").


(** ** Tables

    A cell of a [DataFrame]: a string or an integer as they come from the
    JSON body and the [Year] assignment, JSON [null], and what
    [pd.to_numeric] leaves in a column: a number (a finite double, kept as
    the rational it equals) or [NaN]. *)
Inductive Cell : Type :=
  | CStr (s : string)
  | CInt (n : Z)
  | CNull
  | CNum (q : Qc)
  | CNaN.

Record Table : Type := mkTable {
  columns : list string;
  rows : list (list Cell);
}.

Module Frame.

(** [pd.DataFrame()] *)
Definition empty_frame : Table := mkTable [] [].

(** [df.empty]: some axis has length zero. *)
Definition empty (df : Table) : bool :=
  (length (columns df) =? 0)%nat || (length (rows df) =? 0)%nat.

Definition has_column (df : Table) (c : string) : bool :=
  bool_decide (c ∈ columns df).

Definition width (data : list (list Cell)) : nat :=
  foldr (fun r m => max (length r) m) 0%nat data.

Definition pad (n : nat) (r : list Cell) : list Cell :=
  r ++ replicate (n - length r) CNull.

(** [pd.DataFrame(data, columns=header)] for a list of rows: short rows
    are filled with [None]; the width of the data must be the number of
    labels, unless there is no row at all. [None] is the [ValueError]. *)
Definition DataFrame (data : list (list Cell)) (header : list string) : option Table :=
  match data with
  | [] => Some (mkTable header [])
  | _ =>
      if (width data =? length header)%nat
      then Some (mkTable header (map (pad (width data)) data))
      else None
  end.

(** [~df.columns.duplicated()]: true at the first occurrence of a label. *)
Fixpoint first_occurrence (seen labels : list string) : list bool :=
  match labels with
  | [] => []
  | c :: r => negb (bool_decide (c ∈ seen)) :: first_occurrence (c :: seen) r
  end.

Fixpoint select {A} (mask : list bool) (l : list A) : list A :=
  match mask, l with
  | b :: m, x :: r => if b then x :: select m r else select m r
  | _, _ => []
  end.

(** [df.loc[:, ~df.columns.duplicated()].copy()] *)
Definition drop_duplicate_columns (df : Table) : Table :=
  let mask := first_occurrence [] (columns df) in
  mkTable (select mask (columns df)) (map (select mask) (rows df)).

Fixpoint overwrite (labels : list string) (c : string) (v : Cell) (r : list Cell) : list Cell :=
  match labels, r with
  | l :: ls, x :: xs => (if String.eqb l c then v else x) :: overwrite ls c v xs
  | _, _ => r
  end.

(** [df[c] = v] for a scalar [v]: the column is overwritten where the
    label exists and appended otherwise. *)
Definition set_column (df : Table) (c : string) (v : Cell) : Table :=
  if has_column df c
  then mkTable (columns df) (map (overwrite (columns df) c v) (rows df))
  else mkTable (columns df ++ [c]) (map (fun r => r ++ [v]) (rows df)).

(** The cell of row [r] under label [c] (first column so labelled). *)
Fixpoint cell_at (labels : list string) (r : list Cell) (c : string) : option Cell :=
  match labels, r with
  | l :: ls, x :: xs => if String.eqb l c then Some x else cell_at ls xs c
  | _, _ => None
  end.






End Frame.

(** ** Upstream protocol, exceptions and program state *)

(** One call of [SESSION.get(url, params=..., timeout=...)]. *)
Record Request : Type := mkRequest {
  url : string;
  params : gmap string string;
  timeout : Z;
}.

(** The body as [r.json()] reads it: an array of arrays whose first row
    holds the labels, or the empty array. Any other body is no table and
    is covered by [json = None], where reading it raises. *)
Inductive Json : Type :=
  | JRows (header : list string) (data : list (list Cell))
  | JEmptyArray.

Record Response : Type := mkResponse {
  status_code : Z;
  text : string;
  json : option Json;
}.

(** What the transport hands back after its own retries: a response, or
    an exception of [requests] (connection error, timeout). *)
Inductive Reply : Type :=
  | Answered (r : Response)
  | Failed.

(** The upstream service: the reply to a request given the requests sent
    before it (oldest first). *)
Abbreviation Upstream := (list Request -> Request -> Reply).

Inductive Exn : Type :=
  | HTTPError (status : Z)
  | RequestException
  | JSONDecodeError
  | IndexError
  | ValueError
  | TypeError
  | InvalidIndexError.

Inductive Result (A : Type) : Type :=
  | Ok (a : A)
  | Raise (e : Exn).
Arguments Ok {A} a.
Arguments Raise {A} e.

(** Arguments of [_call_api_cached], also the key of [_cache]. *)
Abbreviation Key := (Z * string * string * option string * option string)%type.
(** Key of [_multi_cache]. *)
Abbreviation MultiKey := (Z * list string * option string * option string)%type.

(** A reference to a [DataFrame] object. *)
Abbreviation ref := nat (only parsing).

Record State : Type := mkState {
  heap : list Table;
  lru : list (Key * ref);
  _cache : gmap Key (ref * Z);
  _multi_cache : gmap MultiKey (ref * Z);
  sent : list Request;
}.

Definition init_state : State := mkState [] [] ∅ ∅ [].

Definition set_heap (h : list Table) (st : State) : State :=
  mkState h (lru st) (_cache st) (_multi_cache st) (sent st).
Definition set_lru (l : list (Key * ref)) (st : State) : State :=
  mkState (heap st) l (_cache st) (_multi_cache st) (sent st).
Definition set_cache (c : gmap Key (ref * Z)) (st : State) : State :=
  mkState (heap st) (lru st) c (_multi_cache st) (sent st).
Definition set_sent (s : list Request) (st : State) : State :=
  mkState (heap st) (lru st) (_cache st) (_multi_cache st) s.

(** The table a reference points to. *)
Definition table_at (st : State) (l : ref) : Table :=
  default Frame.empty_frame (heap st !! l).

(** A caller changing, in place, the table it holds a reference to. *)
Definition mutate (l : ref) (f : Table -> Table) (st : State) : State :=
  set_heap (alter f l (heap st)) st.

(** Computations: state in, result or exception and state out. *)
Definition M (A : Type) : Type := State -> Result A * State.

Definition ret {A} (a : A) : M A := fun st => (Ok a, st).
Definition raise {A} (e : Exn) : M A := fun st => (Raise e, st).
Definition bind {A B} (c : M A) (k : A -> M B) : M B :=
  fun st =>
    match c st with
    | (Ok a, st') => k a st'
    | (Raise e, st') => (Raise e, st')
    end.

Notation "x <- c ;; k" := (bind c (fun x => k))
  (at level 100, c at next level, right associativity).
Notation "c ;;; k" := (bind c (fun _ => k))
  (at level 100, right associativity).

Definition get_state : M State := fun st => (Ok st, st).
Definition put_state (st : State) : M unit := fun _ => (Ok tt, st).

(** Allocation of a new table object. *)
Definition alloc (t : Table) : M ref :=
  fun st => (Ok (length (heap st)), set_heap (heap st ++ [t]) st).

(** [df.copy()] *)
Definition copy (l : ref) : M ref :=
  fun st => alloc (table_at st l) st.

(** ** [functools.lru_cache] *)

Module Lru.

Fixpoint find (k : Key) (l : list (Key * ref)) : option ref :=
  match l with
  | [] => None
  | (k', v) :: r => if bool_decide (k' = k) then Some v else find k r
  end.

Fixpoint remove (k : Key) (l : list (Key * ref)) : list (Key * ref) :=
  match l with
  | [] => []
  | (k', v) :: r => if bool_decide (k' = k) then remove k r else (k', v) :: remove k r
  end.

(** The store lists its entries from the most recently used one. A hit
    returns the stored object itself and makes the entry the most
    recent; a miss runs the function and, when it returns, stores the
    result, dropping the least recently used entry beyond [maxsize].
    A call that raises stores nothing. *)
Definition lru_cache (maxsize : nat) (f : Key -> M ref) (k : Key) : M ref :=
  fun st =>
    match find k (lru st) with
    | Some v => (Ok v, set_lru ((k, v) :: remove k (lru st)) st)
    | None =>
        match f k st with
        | (Ok v, st') => (Ok v, set_lru (take maxsize ((k, v) :: lru st')) st')
        | (Raise e, st') => (Raise e, st')
        end
    end.

End Lru.

(** ** Sorting and integer conversion *)

Module PyList.

Section Sort.
Context {A : Type} (le : A -> A -> bool).

(** [x] goes before the first element it is not greater than, hence
    before the later elements that compare equal to it. *)
Fixpoint insert_sorted (x : A) (l : list A) : list A :=
  match l with
  | [] => [x]
  | y :: r => if le x y then x :: y :: r else y :: insert_sorted x r
  end.

(** The stable ascending sort: the one arrangement [list.sort] and
    [sorted] may produce, elements that compare equal keeping their
    order. *)
Fixpoint sort (l : list A) : list A :=
  match l with
  | [] => []
  | x :: r => insert_sorted x (sort r)
  end.
End Sort.


(** [l.sort(key=...)] once the keys have been computed. *)
Definition sort_by_key {A} (l : list (Z * A)) : list (Z * A) :=
  sort (fun a b => (a.1 <=? b.1)%Z) l.

End PyList.

Module PyInt.

Definition digit (a : ascii) : option Z :=
  let n := nat_of_ascii a in
  if ((48 <=? n) && (n <=? 57))%nat then Some (Z.of_nat (n - 48)) else None.

(** Decimal digits, single underscores allowed between two digits. *)
Fixpoint digits (acc : Z) (after_digit : bool) (s : string) : option Z :=
  match s with
  | EmptyString => if after_digit then Some acc else None
  | String a r =>
      match digit a with
      | Some d => digits (acc * 10 + d) true r
      | None =>
          if Ascii.eqb a "_"%char && after_digit then digits acc false r else None
      end
  end.

(** [int(s)] for a string: [None] is the [ValueError]. *)
Definition of_string (s : string) : option Z :=
  match PyStr.strip s with
  | String "-"%char r => Z.opp <$> digits 0 false r
  | String "+"%char r => digits 0 false r
  | r => digits 0 false r
  end.

(** [int(v)] for the value of a cell. *)
Definition of_cell (c : Cell) : Result Z :=
  match c with
  | CInt n => Ok n
  | CStr s => match of_string s with Some n => Ok n | None => Raise ValueError end
  | CNum q => Ok (Z.quot (Qnum (this q)) (Zpos (Qden (this q))))
  | CNaN => Raise ValueError
  | CNull => Raise TypeError
  end.

End PyInt.

(** ** Request executor and caches *)

Section Fetch.

(** The credential read from the environment at start-up. *)
Variable API_KEY : string.
Variable upstream : Upstream.

(** [SESSION.get(url, params=params, timeout=timeout)]: the request is
    recorded in [sent] and answered by the upstream. *)
Definition SESSION_get (url : string) (params : gmap string string) (timeout : Z)
  : M Response :=
  fun st =>
    let rq := mkRequest url params timeout in
    let st' := set_sent (sent st ++ [rq]) st in
    match upstream (sent st) rq with
    | Answered r => (Ok r, st')
    | Failed => (Raise RequestException, st')
    end.

(** [r.raise_for_status()] *)
Definition raise_for_status (r : Response) : M unit :=
  if ((400 <=? status_code r) && (status_code r <? 600))%Z
  then raise (HTTPError (status_code r))
  else ret tt.

(** [js = r.json(); df = pd.DataFrame(js[1:], columns=js[0])] *)
Definition frame_of_json (r : Response) : M Table :=
  match json r with
  | None => raise JSONDecodeError
  | Some JEmptyArray => raise IndexError
  | Some (JRows header data) =>
      match Frame.DataFrame data header with
      | Some df => ret df
      | None => raise ValueError
      end
  end.

Definition has_key (k : string) (params : gmap string string) : bool :=
  bool_decide (is_Some (params !! k)).

(** The function under the [lru_cache] decorator. *)
Definition _call_api_cached__wrapped__ (k : Key) : M ref :=
  let '(year, code_eff, dataset, for_val, in_val) := k in
  let url := BASE +:+ "/" +:+ PyStr.of_int year +:+ "/" +:+ dataset in
  let req (params : gmap string string) : M Response := SESSION_get url params 15 in
  let params : gmap string string :=
    <["get" := PyStr.join "," ["NAME"; code_eff]]> (<["key" := API_KEY]> ∅) in
  let params :=
    if PyStr.truthy for_val then <["for" := default "" for_val]> params else params in
  let params :=
    if PyStr.truthy in_val then <["in" := default "" in_val]> params else params in
  r <- req params ;;
  r <- (if (status_code r =? 400)%Z
           && PyStr.startswith (default "" for_val) "zip code tabulation area:"
        then
          let txt := PyStr.lower (text r) in
          r <- (if PyStr.contains "ambiguous geography" txt
                   && negb (has_key "in" params)
                then req (<["in" := "state:06"]> params)
                else if PyStr.contains "unknown/unsupported geography hierarchy" txt
                        && has_key "in" params
                then req (delete "in" params)
                else ret r) ;;
          if (status_code r =? 400)%Z
          then
            if has_key "in" params
            then req (delete "in" params)
            else req (<["in" := "state:06"]> params)
          else ret r
        else ret r) ;;
  raise_for_status r ;;;
  df <- frame_of_json r ;;
  let df := Frame.drop_duplicate_columns df in
  let df := Frame.set_column df "Year" (CInt year) in
  alloc df.

Definition _call_api_cached (year : Z) (code_eff dataset : string)
    (for_val in_val : option string) : M ref :=
  Lru.lru_cache 4096 _call_api_cached__wrapped__
    (year, code_eff, dataset, for_val, in_val).

Definition call_api (year : Z) (code : string) (geo : gmap string string) : M ref :=
  let code_eff := resolve_code_for_geo code geo in
  let dataset := dataset_for code_eff in
  let '(for_val, in_val) := _geo_key geo in
  _call_api_cached year code_eff dataset for_val in_val.

Definition timedelta_minutes (m : Z) : Z := (m * 60000000)%Z.

(** The statements of [call_api_ttl] after the lookup: fetch through
    [call_api], store a copy with the time read at entry, return the
    fetched object. *)
Definition call_api_ttl_refresh (key : Key) (year : Z) (code : string)
    (geo : gmap string string) (now : Z) : M ref :=
  df <- call_api year code geo ;;
  c <- copy df ;;
  st <- get_state ;;
  put_state (set_cache (<[key := (c, now)]> (_cache st)) st) ;;;
  ret df.

(** [call_api_ttl]; [now] is the value [datetime.utcnow()] returns. *)
Definition call_api_ttl (year : Z) (code : string) (geo : gmap string string)
    (ttl_minutes : Z) (now : Z) : M ref :=
  let code_eff := resolve_code_for_geo code geo in
  let dataset := dataset_for code_eff in
  let key : Key := (year, code_eff, dataset, geo !! "for", geo !! "in") in
  st <- get_state ;;
  match _cache st !! key with
  | Some (df, ts) =>
      if (now - ts <? timedelta_minutes ttl_minutes)%Z
      then copy df
      else call_api_ttl_refresh key year code geo now
  | None => call_api_ttl_refresh key year code geo now
  end.

(** *** Multi-variable batching *)







(** *** TTL wrapper of the multi-variable call *)



(** *** Multi-year fan-out *)

(** The sort key [int(d["Year"].iloc[0]) if "Year" in d.columns and not
    d.empty else 0]. With the label repeated [d["Year"]] is a frame and
    [int] of its first row raises. *)
Definition sort_key (d : Table) : Result Z :=
  if Frame.has_column d "Year" && negb (Frame.empty d)
  then
    if (1 <? length (filter (fun c => c = "Year") (columns d)))%nat
    then Raise TypeError
    else
      match rows d with
      | r :: _ =>
          match Frame.cell_at (columns d) r "Year" with
          | Some v => PyInt.of_cell v
          | None => Raise IndexError
          end
      | [] => Raise IndexError
      end
  else Ok 0%Z.

Fixpoint keyed (st : State) (frames : list ref) : Result (list (Z * ref)) :=
  match frames with
  | [] => Ok []
  | d :: r =>
      match sort_key (table_at st d), keyed st r with
      | Ok k, Ok kr => Ok ((k, d) :: kr)
      | Raise e, _ => Raise e
      | _, Raise e => Raise e
      end
  end.

(** [frames.sort(key=...)]: every key is computed, then the list is
    sorted stably. *)
Definition sort_frames (frames : list ref) : M (list ref) :=
  fun st =>
    match keyed st frames with
    | Ok kl => (Ok (map snd (PyList.sort_by_key kl)), st)
    | Raise e => (Raise e, st)
    end.

(** The workers of the pool are taken to run one after the other, each
    call of [one] as a whole, in the order in which their futures
    complete. That order, with the clock value each worker reads, is the
    schedule [completion]: any arrangement of the submitted years. *)

(** Workers whose result is no longer collected still run. *)
Fixpoint drain (code : string) (geo : gmap string string)
    (completion : list (Z * Z)) (st : State) : State :=
  match completion with
  | [] => st
  | (y, now) :: rest =>
      drain code geo rest (call_api_ttl y code geo _TTL_MINUTES now st).2
  end.

(** The loop over [as_completed(futs)]. *)
Fixpoint gather (code : string) (geo : gmap string string)
    (completion : list (Z * Z)) (frames : list ref) : M (list ref) :=
  match completion with
  | [] => ret frames
  | (y, now) :: rest =>
      fun st =>
        match call_api_ttl y code geo _TTL_MINUTES now st with
        | (Ok df, st') =>
            gather code geo rest
              (if Frame.empty (table_at st' df) then frames else frames ++ [df]) st'
        | (Raise e, st') => (Raise e, drain code geo rest st')
        end
  end.

(** [call_api_ttl_many]: the argument [ttl_minutes] is accepted and not
    used, [one] calls [call_api_ttl] with its default. A pool of
    [min(6, len(years))] workers cannot be built for an empty list. *)
Definition call_api_ttl_many (years : list Z) (code : string)
    (geo : gmap string string) (ttl_minutes : Z) (completion : list (Z * Z))
  : M (list ref) :=
  if (Nat.min 6 (length years) =? 0)%nat
  then raise ValueError
  else
    frames <- gather code geo completion [] ;;
    sort_frames frames.

End Fetch.

(** ** Tidy reshaper *)

Section Tidy.

(** The numeric parser of [pd.to_numeric] on one string: the number
    read, or [None] when the text is not a number. *)
Variable to_float : string -> option Qc.










End Tidy.

(** ** Sample upstreams and inputs *)

Module Sample.

Definition KEY : string := "k".

Definition ok (header : list string) (data : list (list Cell)) : Response :=
  mkResponse 200 "" (Some (JRows header data)).

Definition bad_request (body : string) : Response := mkResponse 400 body None.

(** Always one row of population for Long Beach; the figure published
    changes after the first request. *)
Definition census : Upstream := fun sent_before _ =>
  Answered (ok ["NAME"; "DP05_0001E"; "state"; "place"]
               [[CStr "Long Beach city, California";
                 CStr (match sent_before with [] => "466742" | _ => "466776" end);
                 CStr "06"; CStr "43000"]]).

(** Every request is refused as ambiguous. *)
Definition always_ambiguous : Upstream := fun _ _ =>
  Answered (bad_request "error: ambiguous geography").

(** Every request is refused for its geography hierarchy. *)
Definition always_unsupported : Upstream := fun _ _ =>
  Answered (bad_request "error: unknown/unsupported geography hierarchy").


(** One row for every year but 2022, for which only the header row is
    returned. *)
Definition no_rows_2022 : Upstream := fun _ rq =>
  Answered (ok ["NAME"; "B01003_001E"; "us"]
               (if PyStr.contains "/2022/" (url rq)
                then []
                else [[CStr "United States"; CStr "331097593"; CStr "1"]])).


Definition hour : Z := 3600000000.



End Sample.

(** ** Vocabulary of the statements *)

(** The key under which [call_api_ttl] files a request. *)
Definition request_key (year : Z) (code : string) (geo : gmap string string) : Key :=
  (year, (resolve code geo).1, (resolve code geo).2, geo !! "for", geo !! "in").

(** The state changes only by allocation: the heap grows at its end. *)
Definition heap_grows (st st' : State) : Prop :=
  ∃ h, heap st' = heap st ++ h.

(** A computation sends at most [n] requests and does nothing else to the
    record of requests. *)
Definition sends {A} (n : nat) (c : M A) : Prop :=
  ∀ st r st', c st = (r, st') →
    ∃ new, sent st' = sent st ++ new ∧ length new ≤ n.

(** Every transition of a computation is in the relation [R]. *)
Definition steps {A} (R : State -> State -> Prop) (c : M A) : Prop :=
  ∀ st r st', c st = (r, st') → R st st'.


(** The TTL caches are left as they are. *)
Definition same_ttl_caches (st st' : State) : Prop :=
  _cache st' = _cache st ∧ _multi_cache st' = _multi_cache st.

(** Order of keyed frames: by key. *)
Definition key_le {A} (a b : Z * A) : Prop := (a.1 ≤ b.1)%Z.

(** The table behind a reference has rows and columns. *)
Definition non_empty_at (st : State) (d : ref) : Prop :=
  Frame.empty (table_at st d) = false.

(** Every row has one cell per label. *)
Definition rectangular (t : Table) : Prop :=
  Forall (fun r => length r = length (columns t)) (rows t).

(** The table has no rows or columns, or it sorts under the year [y]. *)
Definition tagged (y : Z) (t : Table) : Prop :=
  Frame.empty t = true ∨ sort_key t = Ok y.

Definition year_of_key (k : Key) : Z := k.1.1.1.1.

(** Every reference held by a cache of the single-code path is allocated
    and its table carries the year of its key. *)
Definition caches_tagged (st : State) : Prop :=
  (∀ k l, (k, l) ∈ lru st →
     l < length (heap st) ∧ tagged (year_of_key k) (table_at st l)) ∧
  (∀ k l ts, _cache st !! k = Some (l, ts) →
     l < length (heap st) ∧ tagged (year_of_key k) (table_at st l)).

(** Nothing but the record of requests has changed. *)
Definition only_sent (st st' : State) : Prop :=
  heap st' = heap st ∧ lru st' = lru st ∧
  _cache st' = _cache st ∧ _multi_cache st' = _multi_cache st.




(** ** Topics and the callers of the data layer *)

(** [list(range(2018, 2024))] *)
Definition YEARS : list Z := seqZ 2018 6.

Definition LB_ZCTAS : list string :=
  ["90712"; "90755"; "90802"; "90803"; "90804"; "90805";
   "90806"; "90807"; "90808"; "90810"; "90813"; "90814"; "90815"].

Definition TOPICS : list (string * list string) :=
  [("Total Population", ["DP05_0001E"]);
   ("Median Age", ["DP05_0018E"]);
   ("Sex by Age (full)", ["group(B01001)"]);
   ("Race (full)", ["group(B02001)"]);
   ("Hispanic/Latino Origin (full)", ["group(B03002)"])].

Definition TOPIC_MIN_VARS : gmap string (list string) :=
  <["Total Population" := ["DP05_0001E"]]>
  (<["Median Age" := ["B01002_001E"]]>
  (<["Sex" := ["DP05_0001E"; "DP05_0001M"; "DP05_0001C"]]>
  (<["Race/Ethnicity" := ["DP05_0071E"; "DP05_0072E"; "DP05_0077E"; "DP05_0081E"]]> ∅))).

Definition topic_to_vars_min (topic : string) : list string :=
  match TOPIC_MIN_VARS !! topic with
  | Some vars_ => vars_
  | None => ["DP05_0001E"]
  end.

Module Overview.

(** [f"{i:03d}"]: decimal, zero-padded to three characters, sign
    included. *)
Definition format_03d (i : Z) : string :=
  let digits := PyStr.of_int (Z.abs i) in
  let sign := if (i <? 0)%Z then "-" else "" in
  let width := (String.length sign + String.length digits)%nat in
  sign +:+ PyStr.join "" (replicate (3 - width) "0") +:+ digits.

(** [[f"{table}_{i:03d}E" for i in range(1, stop)]] *)
Definition table_codes (table : string) (stop : Z) : list string :=
  map (fun i => table +:+ "_" +:+ format_03d i +:+ "E") (seqZ 1 (stop - 1)).

(** [_geo()], from the geography kind and the ZIP selected. *)
Definition _geo (geo_kind zip : string) : gmap string string :=
  if String.eqb geo_kind "City" then CITY_GEO
  else if String.eqb geo_kind "US" then US_GEO
  else zcta_geo zip.

(** [_codes()], from the topic and the [adv_full] checkbox. *)
Definition _codes (topic : string) (adv_full : bool) : list string :=
  let codes := topic_to_vars_min topic in
  if adv_full then
    if String.eqb topic "Race (full)" then table_codes "B02001" 11
    else if String.eqb topic "Sex by Age (full)" then table_codes "B01001" 50
    else if String.eqb topic "Hispanic/Latino Origin (full)" then table_codes "B03002" 10
    else codes
  else codes.

End Overview.

Module Trends.

Definition TREND_CODE : gmap string string :=
  <["Total Population" := "B01003_001E"]>
  (<["Median Age" := "B01002_001E"]>
  (<["Sex by Age (full)" := "B01001_001E"]>
  (<["Race (full)" := "B02001_001E"]>
  (<["Hispanic/Latino Origin (full)" := "B03002_001E"]> ∅)))).

(** [TREND_CODE.get(topic, "B01003_001E")], the code [_series] fetches. *)
Definition trend_code (topic : string) : string :=
  default "B01003_001E" (TREND_CODE !! topic).

(** [max(l)] of a non-empty list ([0] stands for the [ValueError] of an
    empty one, which [YEARS] is not). *)
Definition max_list (l : list Z) : Z :=
  match l with
  | [] => 0%Z
  | x :: r => foldl Z.max x r
  end.

(** [[y for y in YEARS if y >= max(YEARS) - 2]] *)
Definition YEARS_FAST : list Z :=
  filter (fun y => (max_list YEARS - 2 ≤ y)%Z) YEARS.

(** [_years()], from the [more_years] checkbox. *)
Definition _years (more_years : bool) : list Z :=
  if more_years then YEARS else YEARS_FAST.

End Trends.

(** ** Further vocabulary *)

(** Parameters the executor may send for the arguments [k]: the
    requested code after [NAME], the credential, the for-clause when it is
    given, and as in-clause the one given, [state:06], or none. *)
Definition executor_params (API_KEY : string) (k : Key) (p : gmap string string) : Prop :=
  let '(year, code_eff, dataset, for_val, in_val) := k in
  p !! "get" = Some (PyStr.join "," ["NAME"; code_eff]) ∧
  p !! "key" = Some API_KEY ∧
  p !! "for" = (if PyStr.truthy for_val then for_val else None) ∧
  (p !! "in" = None ∨ p !! "in" = Some "state:06" ∨
   (PyStr.truthy in_val = true ∧ p !! "in" = in_val)).

Definition executor_request (API_KEY : string) (k : Key) (rq : Request) : Prop :=
  let '(year, code_eff, dataset, for_val, in_val) := k in
  url rq = BASE +:+ "/" +:+ PyStr.of_int year +:+ "/" +:+ dataset ∧
  timeout rq = 15%Z ∧
  executor_params API_KEY k (params rq).

(** At most [n] requests are added to the record, each satisfying [P]. *)
Definition adds (P : Request -> Prop) (n : nat) (st st' : State) : Prop :=
  ∃ new, sent st' = sent st ++ new ∧ length new ≤ n ∧ Forall P new.


(** The [lru_cache] store holds at most [maxsize] entries, one per key. *)
Definition lru_bounded (st : State) : Prop :=
  length (lru st) ≤ 4096 ∧ NoDup (map fst (lru st)).

(** Every reference held by a cache is allocated, and no table stored by
    the TTL cache of the single-code path is held by the [lru_cache]
    store as well. *)
Definition caches_separate (st : State) : Prop :=
  (∀ k l, (k, l) ∈ lru st → l < length (heap st)) ∧
  (∀ k l ts, _cache st !! k = Some (l, ts) →
     l < length (heap st) ∧ ∀ k', (k', l) ∉ lru st).

(** * Properties *)

(** ** Resolver *)

Lemma startswith_app (p s : string) : PyStr.startswith (p +:+ s) p = true.
Proof.
  unfold PyStr.startswith. induction p as [|a p IH]; simpl.
  - by destruct s.
  - destruct (ascii_dec a a); [exact IH | congruence].
Qed.

Lemma is_zcta_geo_zcta_geo (z : string) : is_zcta_geo (zcta_geo z) = true.
Proof.
  unfold is_zcta_geo, zcta_geo. rewrite lookup_insert_eq. simpl default.
  apply startswith_app.
Qed.

(** C6. Resolution of a variable code under a geography is a function of
    its two arguments alone: equal inputs give equal (effective code,
    dataset) pairs. The code [DP05_0001E] resolves to [B01003_001E] in the
    detailed dataset [acs/acs5] under every ZCTA geography (those built by
    [zcta_geo] are such), and to itself in the profile dataset
    [acs/acs5/profile] under the city geography. *)
Theorem resolve_deterministic :
  (∀ code code' geo geo',
      code = code' → geo = geo' → resolve code geo = resolve code' geo') ∧
  (∀ geo, is_zcta_geo geo = true →
      resolve "DP05_0001E" geo = ("B01003_001E", "acs/acs5")) ∧
  (∀ z, resolve "DP05_0001E" (zcta_geo z) = ("B01003_001E", "acs/acs5")) ∧
  resolve "DP05_0001E" CITY_GEO = ("DP05_0001E", "acs/acs5/profile").
Proof.
  assert (Hz : ∀ geo, is_zcta_geo geo = true →
                resolve "DP05_0001E" geo = ("B01003_001E", "acs/acs5")).
  { intros geo Hgeo. unfold resolve, resolve_code_for_geo. rewrite Hgeo.
    vm_compute. reflexivity. }
  split; [by intros ? ? ? ? -> -> |].
  split; [exact Hz |].
  split; [intros z; apply Hz, is_zcta_geo_zcta_geo |].
  vm_compute. reflexivity.
Qed.

(** ** Concrete runs *)

(** C1. Evaluation at the failing input. With empty caches,
    [call_api_ttl(2023, "DP05_0001E", CITY_GEO)] at time 0 sends one
    request and stores its table with timestamp 0. The same call one hour
    later finds the entry with an age equal to the TTL, hence expired, yet
    sends no request: [call_api] answers from the [lru_cache] store of
    [_call_api_cached]. The caller receives the object of the first call
    and the entry is replaced by a copy of that old table (the figure
    466742, where the upstream now publishes 466776) under the new
    timestamp. *)
Theorem call_api_ttl_expired_entry_not_refetched :
  let key : Key :=
    (2023%Z, "DP05_0001E", "acs/acs5/profile", Some "place:43000", Some "state:06") in
  let first :=
    call_api_ttl Sample.KEY Sample.census 2023 "DP05_0001E" CITY_GEO 60 0 init_state in
  let second :=
    call_api_ttl Sample.KEY Sample.census 2023 "DP05_0001E" CITY_GEO 60 Sample.hour
      first.2 in
  _cache first.2 !! key = Some (1, 0%Z) ∧
  (Sample.hour - 0 <? timedelta_minutes 60)%Z = false ∧
  length (sent first.2) = 1 ∧
  sent second.2 = sent first.2 ∧
  first.1 = Ok 0 ∧ second.1 = Ok 0 ∧
  _cache second.2 !! key = Some (2, Sample.hour) ∧
  table_at second.2 2 = table_at first.2 0 ∧
  Frame.cell_at (columns (table_at second.2 2))
                (default [] (rows (table_at second.2 2) !! 0)) "DP05_0001E"
    = Some (CStr "466742").
Proof. vm_compute. repeat split; reflexivity. Qed.

(** C3. Evaluation at the failing input. A ZCTA request sent without a
    region clause and refused as ambiguous is retried with [in=state:06];
    when the retry is refused too, the last attempt is chosen from the
    parameters of the first attempt, so it carries [in=state:06] again
    and repeats the retry instead of dropping the clause that is present
    by then. Likewise a request sent with the clause and refused for its
    hierarchy is retried without it, and then once more without it. *)
Theorem quirk_last_attempt_repeats_retry :
  let zip := Some "zip code tabulation area:90802" in
  let added :=
    _call_api_cached Sample.KEY Sample.always_ambiguous 2023 "B01003_001E" "acs/acs5"
      zip None init_state in
  let removed :=
    _call_api_cached Sample.KEY Sample.always_unsupported 2023 "B01003_001E" "acs/acs5"
      zip (Some "state:06") init_state in
  added.1 = Raise (HTTPError 400) ∧
  map (fun rq => params rq !! "in") (sent added.2)
    = [None; Some "state:06"; Some "state:06"] ∧
  removed.1 = Raise (HTTPError 400) ∧
  map (fun rq => params rq !! "in") (sent removed.2)
    = [Some "state:06"; None; None].
Proof. vm_compute. repeat split; reflexivity. Qed.

(** C4. Evaluation at the failing input. On a miss, [call_api_ttl]
    returns the very object that the [lru_cache] store of
    [_call_api_cached] holds: a caller that empties the table it received
    empties the stored one. After the TTL the emptied table is what
    [call_api_ttl] returns and copies into [_cache]. *)
Theorem call_api_ttl_miss_returns_lru_object :
  let key : Key :=
    (2023%Z, "DP05_0001E", "acs/acs5/profile", Some "place:43000", Some "state:06") in
  let first :=
    call_api_ttl Sample.KEY Sample.census 2023 "DP05_0001E" CITY_GEO 60 0 init_state in
  let touched := mutate 0 (fun _ => Frame.empty_frame) first.2 in
  let second :=
    call_api_ttl Sample.KEY Sample.census 2023 "DP05_0001E" CITY_GEO 60 Sample.hour
      touched in
  first.1 = Ok 0 ∧
  Lru.find key (lru first.2) = Some 0 ∧
  Frame.empty (table_at first.2 0) = false ∧
  table_at touched 0 = Frame.empty_frame ∧
  second.1 = Ok 0 ∧
  _cache second.2 !! key = Some (2, Sample.hour) ∧
  table_at second.2 2 = Frame.empty_frame.
Proof. vm_compute. repeat split; reflexivity. Qed.



(** ** Reasoning about computations *)

Lemma bind_inv {A B} (c : M A) (k : A -> M B) st r st' :
  bind c k st = (r, st') →
  (∃ a s, c st = (Ok a, s) ∧ k a s = (r, st')) ∨
  (∃ e, c st = (Raise e, st') ∧ r = Raise e).
Proof.
  unfold bind. destruct (c st) as [[a|e] s]; intros H.
  - left. eauto.
  - right. inversion H; subst. eauto.
Qed.

Lemma bind_Ok_inv {A B} (c : M A) (k : A -> M B) st b st' :
  bind c k st = (Ok b, st') → ∃ a s, c st = (Ok a, s) ∧ k a s = (Ok b, st').
Proof.
  intros H. destruct (bind_inv _ _ _ _ _ H) as [?|(e & _ & ?)]; [done | discriminate].
Qed.

Section Steps.
Context (R : State -> State -> Prop).
Hypothesis R_refl : ∀ st, R st st.
Hypothesis R_trans : ∀ a b c, R a b → R b c → R a c.

Lemma steps_ret {A} (a : A) : steps R (ret a).
Proof. intros st r st' [= _ <-]. apply R_refl. Qed.

Lemma steps_raise {A} (e : Exn) : steps R (@raise A e).
Proof. intros st r st' [= _ <-]. apply R_refl. Qed.

Lemma steps_get_state : steps R get_state.
Proof. intros st r st' [= _ <-]. apply R_refl. Qed.

Lemma steps_bind {A B} (c : M A) (k : A -> M B) :
  steps R c → (∀ a, steps R (k a)) → steps R (bind c k).
Proof.
  intros Hc Hk st r st' H.
  destruct (bind_inv _ _ _ _ _ H) as [(a & s & H1 & H2)|(e & H1 & _)].
  - eapply R_trans; [eapply Hc, H1 | eapply Hk, H2].
  - eapply Hc, H1.
Qed.
End Steps.

Lemma heap_grows_refl st : heap_grows st st.
Proof. exists []. by rewrite app_nil_r. Qed.

Lemma heap_grows_trans a b c : heap_grows a b → heap_grows b c → heap_grows a c.
Proof. intros [h1 H1] [h2 H2]. exists (h1 ++ h2). by rewrite H2, H1, app_assoc. Qed.

Lemma heap_grows_lookup st st' l t :
  heap_grows st st' → heap st !! l = Some t → heap st' !! l = Some t.
Proof. intros [h ->] H. by apply lookup_app_l_Some. Qed.

Lemma heap_grows_nonempty st st' l :
  heap_grows st st' →
  Frame.empty (table_at st l) = false → table_at st' l = table_at st l.
Proof.
  intros Hg Hne. unfold table_at in *.
  destruct (heap st !! l) as [t|] eqn:E.
  - by rewrite (heap_grows_lookup _ _ _ _ Hg E).
  - discriminate.
Qed.

Lemma sends_ret {A} (a : A) : sends 0 (ret a).
Proof. intros st r st' [= _ <-]. exists []. by rewrite app_nil_r. Qed.

Lemma sends_raise {A} (e : Exn) : sends 0 (@raise A e).
Proof. intros st r st' [= _ <-]. exists []. by rewrite app_nil_r. Qed.

Lemma sends_weaken {A} (n m : nat) (c : M A) : n ≤ m → sends n c → sends m c.
Proof.
  intros Hle Hc st r st' H. destruct (Hc _ _ _ H) as (new & ? & ?).
  exists new. split; [done | lia].
Qed.

Lemma sends_bind {A B} (n m : nat) (c : M A) (k : A -> M B) :
  sends n c → (∀ a, sends m (k a)) → sends (n + m) (bind c k).
Proof.
  intros Hc Hk st r st' H.
  destruct (bind_inv _ _ _ _ _ H) as [(a & s & H1 & H2)|(e & H1 & _)].
  - destruct (Hc _ _ _ H1) as (n1 & E1 & L1).
    destruct (Hk _ _ _ _ H2) as (n2 & E2 & L2).
    exists (n1 ++ n2). rewrite E2, E1, app_assoc, length_app. split; [done | lia].
  - destruct (Hc _ _ _ H1) as (n1 & E1 & L1). exists n1. split; [done | lia].
Qed.

Lemma sends_alloc t : sends 0 (alloc t).
Proof. intros st r st' [= _ <-]. exists []. by rewrite app_nil_r. Qed.

Lemma sends_copy l : sends 0 (copy l).
Proof. intros st r st' H. by apply (sends_alloc _ _ _ _ H). Qed.

Ltac sends_tac :=
  repeat first
    [ assumption
    | apply sends_ret
    | apply sends_raise
    | apply sends_alloc
    | apply sends_copy
    | match goal with
      | |- sends _ (if ?b then _ else _) => destruct b
      | |- sends _ (match ?x with _ => _ end) => destruct x
      end ].

(** ** The executor and the single-code path *)

Section Single.

Variable API_KEY : string.
Variable upstream : Upstream.

Lemma SESSION_get_inv url p t st r st' :
  SESSION_get upstream url p t st = (r, st') →
  st' = set_sent (sent st ++ [mkRequest url p t]) st.
Proof.
  unfold SESSION_get. destruct (upstream _ _); by intros [= _ <-].
Qed.

Lemma sends_SESSION_get url p t : sends 1 (SESSION_get upstream url p t).
Proof.
  intros st r st' H. apply SESSION_get_inv in H as ->.
  by exists [mkRequest url p t].
Qed.

Lemma steps_SESSION_get R url p t :
  (∀ st s, R st (set_sent s st)) → steps R (SESSION_get upstream url p t).
Proof. intros HR st r st' H. apply SESSION_get_inv in H as ->. apply HR. Qed.

Lemma steps_alloc R t :
  (∀ st h, R st (set_heap (heap st ++ h) st)) → steps R (alloc t).
Proof. intros HR st r st' [= _ <-]. apply HR. Qed.

Lemma steps_copy R l :
  (∀ st h, R st (set_heap (heap st ++ h) st)) → steps R (copy l).
Proof. intros HR st r st' H. by apply (steps_alloc R _ HR _ _ _ H). Qed.

Lemma steps_raise_for_status R r : (∀ st, R st st) → steps R (raise_for_status r).
Proof.
  intros HR. unfold raise_for_status.
  destruct (_ && _); [by apply steps_raise | by apply steps_ret].
Qed.

Lemma steps_frame_of_json R r : (∀ st, R st st) → steps R (frame_of_json r).
Proof.
  intros HR. unfold frame_of_json.
  destruct (json r) as [[h d|]|]; [| by apply steps_raise..].
  destruct (Frame.DataFrame d h); [by apply steps_ret | by apply steps_raise].
Qed.

Lemma sends_raise_for_status r : sends 0 (raise_for_status r).
Proof. unfold raise_for_status. sends_tac. Qed.

Lemma sends_frame_of_json r : sends 0 (frame_of_json r).
Proof. unfold frame_of_json. sends_tac. Qed.

(** A relation that holds across sending and allocation holds across a
    run of the function under the decorator. *)
Lemma steps_wrapped R k :
  (∀ st, R st st) → (∀ a b c, R a b → R b c → R a c) →
  (∀ st s, R st (set_sent s st)) →
  (∀ st h, R st (set_heap (heap st ++ h) st)) →
  steps R (_call_api_cached__wrapped__ API_KEY upstream k).
Proof.
  intros Hrefl Htrans Hsent Hheap.
  destruct k as [[[[year code_eff] dataset] for_val] in_val].
  unfold _call_api_cached__wrapped__.
  pose proof (steps_SESSION_get R) as Hget.
  pose proof (steps_raise_for_status R) as Hrfs.
  pose proof (steps_frame_of_json R) as Hjson.
  repeat first
    [ apply Hget; exact Hsent
    | apply Hrfs; exact Hrefl
    | apply Hjson; exact Hrefl
    | apply steps_alloc; exact Hheap
    | apply steps_ret; exact Hrefl
    | apply steps_bind; [exact Htrans | | intros ?]
    | match goal with
      | |- steps _ (if ?b then _ else _) => destruct b
      end ].
Qed.

Lemma steps_lru_cache R n f k :
  (∀ st l, R st (set_lru l st)) → (∀ a b c, R a b → R b c → R a c) →
  steps R (f k) → steps R (Lru.lru_cache n f k).
Proof.
  intros Hlru Htrans Hf st r st'. unfold Lru.lru_cache.
  destruct (Lru.find k (lru st)) as [v|].
  - intros [= _ <-]. apply Hlru.
  - destruct (f k st) as [[v|e] s] eqn:E; intros [= _ <-].
    + eapply Htrans; [eapply Hf, E | apply Hlru].
    + eapply Hf, E.
Qed.

Lemma steps_call_api R year code geo :
  (∀ st, R st st) → (∀ a b c, R a b → R b c → R a c) →
  (∀ st s, R st (set_sent s st)) →
  (∀ st h, R st (set_heap (heap st ++ h) st)) →
  (∀ st l, R st (set_lru l st)) →
  steps R (call_api API_KEY upstream year code geo).
Proof.
  intros. unfold call_api, _call_api_cached. simpl.
  apply steps_lru_cache; [done..|]. by apply steps_wrapped.
Qed.

Lemma call_api_heap_grows year code geo :
  steps heap_grows (call_api API_KEY upstream year code geo).
Proof.
  apply steps_call_api.
  - apply heap_grows_refl.
  - apply heap_grows_trans.
  - intros st s. exists []. simpl. by rewrite app_nil_r.
  - intros st h. by exists h.
  - intros st l. exists []. simpl. by rewrite app_nil_r.
Qed.

Lemma call_api_same_ttl_caches year code geo :
  steps same_ttl_caches (call_api API_KEY upstream year code geo).
Proof.
  apply steps_call_api; try done.
  intros a b c [H1 H2] [H3 H4]. split; congruence.
Qed.

(** *** The TTL cache of the single-code path *)

Lemma table_at_alloc_new st t :
  table_at (set_heap (heap st ++ [t]) st) (length (heap st)) = t.
Proof.
  unfold table_at. simpl. rewrite lookup_app_r by lia.
  by rewrite Nat.sub_diag.
Qed.

Lemma table_at_alloc_self st l :
  table_at (set_heap (heap st ++ [table_at st l]) st) l = table_at st l.
Proof.
  unfold table_at at 1. simpl.
  destruct (decide (l < length (heap st))) as [Hlt|Hge].
  - by rewrite lookup_app_l.
  - rewrite lookup_app_r by lia. unfold table_at.
    rewrite (lookup_ge_None_2 (heap st) l) by lia.
    by destruct (l - length (heap st)) as [|[|n]].
Qed.

Lemma call_api_ttl_refresh_eq key year code geo now st :
  call_api_ttl_refresh API_KEY upstream key year code geo now st =
  match call_api API_KEY upstream year code geo st with
  | (Ok df, s) =>
      (Ok df,
       set_cache (<[key := (length (heap s), now)]> (_cache s))
                 (set_heap (heap s ++ [table_at s df]) s))
  | (Raise e, s) => (Raise e, s)
  end.
Proof.
  unfold call_api_ttl_refresh, bind.
  by destruct (call_api API_KEY upstream year code geo st) as [[df|e] s].
Qed.

Lemma call_api_ttl_eq year code geo ttl now st :
  call_api_ttl API_KEY upstream year code geo ttl now st =
  match _cache st !! request_key year code geo with
  | Some (df, ts) =>
      if (now - ts <? timedelta_minutes ttl)%Z
      then copy df st
      else call_api_ttl_refresh API_KEY upstream (request_key year code geo)
             year code geo now st
  | None =>
      call_api_ttl_refresh API_KEY upstream (request_key year code geo)
        year code geo now st
  end.
Proof.
  unfold call_api_ttl, request_key, resolve, bind, get_state. simpl.
  destruct (_cache st !! _) as [[df ts]|]; [|done].
  by destruct (_ <? _)%Z.
Qed.

(** C5. When a call of [call_api_ttl] has returned, the cache holds an
    entry under the key of the request; a second call with the same
    year, code and geography made while the age of that entry is
    strictly below the TTL returns a table equal to the one the first
    call returned, and the record of requests sent is unchanged. *)
Theorem call_api_ttl_repeat_within_ttl year code geo ttl1 now1 st r1 st1 :
  call_api_ttl API_KEY upstream year code geo ttl1 now1 st = (Ok r1, st1) →
  ∃ stored ts,
    _cache st1 !! request_key year code geo = Some (stored, ts) ∧
    ∀ ttl2 now2, (now2 - ts < timedelta_minutes ttl2)%Z →
      ∃ r2 st2,
        call_api_ttl API_KEY upstream year code geo ttl2 now2 st1 = (Ok r2, st2) ∧
        table_at st2 r2 = table_at st1 r1 ∧
        sent st2 = sent st1.
Proof.
  intros H. rewrite call_api_ttl_eq in H.
  assert (Hrefresh :
    call_api_ttl_refresh API_KEY upstream (request_key year code geo)
      year code geo now1 st = (Ok r1, st1) →
    ∃ stored ts,
      _cache st1 !! request_key year code geo = Some (stored, ts) ∧
      ∀ ttl2 now2, (now2 - ts < timedelta_minutes ttl2)%Z →
        ∃ r2 st2,
          call_api_ttl API_KEY upstream year code geo ttl2 now2 st1 = (Ok r2, st2) ∧
          table_at st2 r2 = table_at st1 r1 ∧
          sent st2 = sent st1).
  { clear H. rewrite call_api_ttl_refresh_eq.
    destruct (call_api API_KEY upstream year code geo st) as [[df|e] s];
      [|discriminate].
    intros [= <- <-]. exists (length (heap s)), now1.
    split; [simpl; apply lookup_insert_eq |].
    intros ttl2 now2 Hage. rewrite call_api_ttl_eq. simpl _cache.
    rewrite lookup_insert_eq.
    apply Z.ltb_lt in Hage. rewrite Hage.
    eexists _, _. split; [reflexivity |]. split; [|reflexivity].
    rewrite table_at_alloc_new.
    change (table_at (set_heap (heap s ++ [table_at s df]) s) (length (heap s))
            = table_at (set_heap (heap s ++ [table_at s df]) s) df).
    by rewrite table_at_alloc_new, table_at_alloc_self. }
  destruct (_cache st !! request_key year code geo) as [[df ts]|] eqn:Ehit;
    [|by apply Hrefresh].
  destruct (now1 - ts <? timedelta_minutes ttl1)%Z; [|by apply Hrefresh].
  injection H as <- <-. exists df, ts. split; [exact Ehit |].
  intros ttl2 now2 Hage. rewrite call_api_ttl_eq. simpl _cache. rewrite Ehit.
  apply Z.ltb_lt in Hage. rewrite Hage.
  eexists _, _. split; [reflexivity |]. split; [|reflexivity].
  by rewrite !table_at_alloc_new, table_at_alloc_self.
Qed.

End Single.

(** ** Stable sort by key *)

Section SortByKey.
Context {A : Type}.
Implicit Types (l : list (Z * A)) (x : Z * A).

Local Abbreviation ins := (PyList.insert_sorted (fun a b : Z * A => (a.1 <=? b.1)%Z)).

Lemma insert_sorted_perm x l : ins x l ≡ₚ x :: l.
Proof.
  induction l as [|y l IH]; simpl; [done |].
  destruct (x.1 <=? y.1)%Z; [done |].
  rewrite IH. apply Permutation_swap.
Qed.

Lemma sort_by_key_perm l : PyList.sort_by_key l ≡ₚ l.
Proof.
  unfold PyList.sort_by_key.
  induction l as [|x l IH]; simpl; [done |].
  by rewrite insert_sorted_perm, IH.
Qed.

Lemma insert_sorted_sorted x l :
  StronglySorted key_le l → StronglySorted key_le (ins x l).
Proof.
  induction 1 as [|y l Hl IH Hy]; simpl.
  - repeat constructor.
  - destruct (x.1 <=? y.1)%Z eqn:E.
    + apply Z.leb_le in E. constructor; [by constructor |].
      constructor; [exact E |].
      eapply Forall_impl; [exact Hy |]. unfold key_le. intros; lia.
    + apply Z.leb_gt in E. constructor; [exact IH |].
      rewrite insert_sorted_perm. constructor; [unfold key_le; lia | exact Hy].
Qed.

Lemma sort_by_key_sorted l : StronglySorted key_le (PyList.sort_by_key l).
Proof.
  unfold PyList.sort_by_key.
  induction l as [|x l IH]; simpl; [constructor |].
  by apply insert_sorted_sorted.
Qed.

Lemma sorted_keys l : StronglySorted key_le l → StronglySorted Z.le (map fst l).
Proof.
  induction 1 as [|x l Hl IH Hx]; simpl; constructor; [done |].
  by apply Forall_fmap.
Qed.

(** With pairwise distinct keys the sorted arrangement is unique: the
    order in which the elements were collected is immaterial. *)
Lemma sort_by_key_order_free l l' :
  l ≡ₚ l' → NoDup (map fst l) → PyList.sort_by_key l = PyList.sort_by_key l'.
Proof.
  intros Hp Hnd.
  apply (StronglySorted_unique_strong key_le);
    [| apply sort_by_key_sorted.. | by rewrite !sort_by_key_perm].
  intros x1 x2 H1 H2 Hle1 Hle2. unfold key_le in *.
  rewrite sort_by_key_perm in H1. rewrite sort_by_key_perm, <- Hp in H2.
  assert (Hk : x1.1 = x2.1) by lia. clear Hle1 Hle2 Hp.
  induction l as [|y l IH]; [by apply elem_of_nil in H1 |].
  apply NoDup_cons in Hnd as [Hy Hnd]. simpl in Hy.
  apply elem_of_cons in H1 as [->|H1]; apply elem_of_cons in H2 as [->|H2].
  - done.
  - exfalso. apply Hy. rewrite Hk. by apply list_elem_of_fmap_2.
  - exfalso. apply Hy. rewrite <- Hk. by apply list_elem_of_fmap_2.
  - by apply IH.
Qed.

End SortByKey.

(** ** Multi-year fan-out *)

Lemma keyed_inv st fs kl :
  keyed st fs = Ok kl →
  map snd kl = fs ∧ Forall (fun p => sort_key (table_at st p.2) = Ok p.1) kl.
Proof.
  revert kl. induction fs as [|d fs IH]; simpl; intros kl H.
  - by injection H as <-.
  - destruct (sort_key (table_at st d)) as [k|e] eqn:Ek; [|discriminate].
    destruct (keyed st fs) as [kr|e]; [|discriminate].
    injection H as <-. destruct (IH _ eq_refl) as [Hs Hf].
    split; [simpl; by rewrite Hs | by constructor].
Qed.

Lemma keyed_perm st fs fs' :
  fs ≡ₚ fs' → ∀ kl, keyed st fs = Ok kl → ∃ kl', keyed st fs' = Ok kl' ∧ kl ≡ₚ kl'.
Proof.
  induction 1 as [|d l l' Hp IH|d1 d2 l|l1 l2 l3 H12 IH12 H23 IH23]; intros kl; simpl.
  - intros [= <-]. by exists [].
  - destruct (sort_key (table_at st d)) as [k|e]; [|discriminate].
    destruct (keyed st l) as [kr|e]; [|discriminate].
    intros [= <-]. destruct (IH _ eq_refl) as (kr' & -> & Hkr).
    exists ((k, d) :: kr'). split; [done | by constructor].
  - destruct (sort_key (table_at st d2)) as [k2|e]; [|discriminate].
    destruct (sort_key (table_at st d1)) as [k1|e];
      [|by destruct (keyed st l)].
    destruct (keyed st l) as [kr|e]; [|discriminate].
    intros [= <-]. exists ((k1, d1) :: (k2, d2) :: kr). split; [done | apply Permutation_swap].
  - intros H. destruct (IH12 _ H) as (k2 & H2 & P2).
    destruct (IH23 _ H2) as (k3 & H3 & P3).
    exists k3. split; [done | by etrans].
Qed.

(** Collected in one order or another, frames with pairwise distinct
    keys come out of the sort in the same order. *)
Lemma sort_frames_order_free st fs fs' kl :
  fs ≡ₚ fs' → keyed st fs = Ok kl → NoDup (map fst kl) →
  sort_frames fs' st = sort_frames fs st.
Proof.
  intros Hp Hk Hnd. unfold sort_frames. rewrite Hk.
  destruct (keyed_perm _ _ _ Hp _ Hk) as (kl' & -> & Hkl).
  by rewrite (sort_by_key_order_free kl kl' Hkl Hnd).
Qed.

Lemma sort_frames_inv st fs out st' :
  sort_frames fs st = (Ok out, st') →
  st' = st ∧ out ≡ₚ fs ∧
  ∃ ks, Forall2 (fun d k => sort_key (table_at st d) = Ok k) out ks ∧
        StronglySorted Z.le ks.
Proof.
  unfold sort_frames. destruct (keyed st fs) as [kl|e] eqn:Ek; [|discriminate].
  intros [= <- <-]. destruct (keyed_inv _ _ _ Ek) as [Hs Hf].
  split; [done |]. split.
  - rewrite <- Hs. apply fmap_Permutation, sort_by_key_perm.
  - exists (map fst (PyList.sort_by_key kl)). split.
    + rewrite <- (sort_by_key_perm kl) in Hf.
      induction Hf; simpl; by constructor.
    + apply sorted_keys, sort_by_key_sorted.
Qed.

Section Many.

Variable API_KEY : string.
Variable upstream : Upstream.

Lemma call_api_ttl_heap_grows year code geo ttl now :
  steps heap_grows (call_api_ttl API_KEY upstream year code geo ttl now).
Proof.
  intros st r st'. rewrite call_api_ttl_eq.
  assert (Hcopy : ∀ l, copy l st = (r, st') → heap_grows st st').
  { intros l [= _ <-]. by eexists. }
  assert (Hrefresh :
    call_api_ttl_refresh API_KEY upstream (request_key year code geo)
      year code geo now st = (r, st') → heap_grows st st').
  { rewrite call_api_ttl_refresh_eq.
    destruct (call_api API_KEY upstream year code geo st) as [[df|e] s] eqn:E;
      intros [= _ <-];
      pose proof (call_api_heap_grows _ _ _ _ _ _ _ _ E) as Hg; [|done].
    eapply heap_grows_trans; [exact Hg | by eexists]. }
  destruct (_cache st !! _) as [[df ts]|]; [|done].
  destruct (_ <? _)%Z; [apply Hcopy | done].
Qed.

(** What the loop over the completed futures has collected: the frames
    it started with, followed by at most one reference per worker, each
    to a table with rows and columns. *)
Lemma gather_inv code geo completion :
  ∀ frames st out st',
    gather API_KEY upstream code geo completion frames st = (Ok out, st') →
    heap_grows st st' ∧
    ∃ added, out = frames ++ added ∧
             length added ≤ length completion ∧
             Forall (non_empty_at st') added.
Proof.
  induction completion as [|[y now] rest IH]; simpl; intros frames st out st' H.
  - injection H as <- <-. split; [apply heap_grows_refl |].
    exists []. by rewrite app_nil_r.
  - destruct (call_api_ttl API_KEY upstream y code geo _TTL_MINUTES now st)
      as [[df|e] s] eqn:E; [|discriminate].
    pose proof (call_api_ttl_heap_grows _ _ _ _ _ _ _ _ E) as Hg.
    destruct (Frame.empty (table_at s df)) eqn:Eempty;
      destruct (IH _ _ _ _ H) as (Hg' & added & -> & Hlen & Hne).
    + split; [by eapply heap_grows_trans |]. exists added. split_and!; [done | lia | done].
    + split; [by eapply heap_grows_trans |]. exists (df :: added).
      rewrite <- app_assoc. split_and!; [done | simpl; lia |].
      constructor; [|done]. unfold non_empty_at.
      by rewrite (heap_grows_nonempty _ _ _ Hg' Eempty).
Qed.

(** A worker whose table has no rows adds nothing to the list and
    raises nothing: the loop goes on as if it had not been there. *)
Lemma gather_skips_empty code geo y now rest frames st df st1 :
  call_api_ttl API_KEY upstream y code geo _TTL_MINUTES now st = (Ok df, st1) →
  Frame.empty (table_at st1 df) = true →
  gather API_KEY upstream code geo ((y, now) :: rest) frames st
  = gather API_KEY upstream code geo rest frames st1.
Proof. intros H E. simpl. by rewrite H, E. Qed.

Lemma call_api_ttl_many_inv years code geo ttl completion st frames st' :
  call_api_ttl_many API_KEY upstream years code geo ttl completion st
    = (Ok frames, st') →
  length frames ≤ length completion ∧
  Forall (non_empty_at st') frames ∧
  ∃ ks, Forall2 (fun d k => sort_key (table_at st' d) = Ok k) frames ks ∧
        StronglySorted Z.le ks.
Proof.
  unfold call_api_ttl_many. destruct (_ =? 0); [discriminate |].
  intros H. apply bind_Ok_inv in H as (fs & s & Hgather & Hsort).
  apply sort_frames_inv in Hsort as (-> & Hperm & Hks).
  apply gather_inv in Hgather as (_ & added & -> & Hlen & Hne).
  simpl in Hperm. split_and!; [by rewrite Hperm | by rewrite Hperm | done].
Qed.

End Many.

(** ** The year column of fetched tables *)

Lemma length_le_width (data : list (list Cell)) r :
  r ∈ data → length r ≤ Frame.width data.
Proof.
  induction data as [|x data IH]; [by intros ?%elem_of_nil |].
  intros [->|H]%elem_of_cons; simpl; [lia |]. specialize (IH H). lia.
Qed.

Lemma DataFrame_rectangular data header t :
  Frame.DataFrame data header = Some t → rectangular t.
Proof.
  intros H.
  assert (Hcases :
    (data = [] ∧ t = mkTable header []) ∨
    (Frame.width data = length header ∧
     t = mkTable header (map (Frame.pad (Frame.width data)) data))).
  { unfold Frame.DataFrame in H. destruct data as [|r0 data].
    - left. by injection H as <-.
    - right. destruct (_ =? _) eqn:E; [|discriminate].
      apply Nat.eqb_eq in E. by injection H as <-. }
  clear H. unfold rectangular. destruct Hcases as [[-> ->]|[E ->]]; cbn [columns rows].
  - constructor.
  - rewrite <- E. apply Forall_fmap, Forall_forall. intros r Hr.
    apply length_le_width in Hr. unfold Frame.pad. cbn [compose].
    rewrite length_app, length_replicate. lia.
Qed.

Lemma select_length {A B} mask (l : list A) (l' : list B) :
  length l = length l' → length (Frame.select mask l) = length (Frame.select mask l').
Proof.
  revert l l'. induction mask as [|b mask IH]; intros [|x l] [|x' l']; simpl;
    try done.
  intros [= H]. destruct b; simpl; by rewrite (IH l l' H).
Qed.

Lemma first_occurrence_NoDup seen l :
  NoDup (Frame.select (Frame.first_occurrence seen l) l) ∧
  ∀ x, x ∈ Frame.select (Frame.first_occurrence seen l) l → x ∉ seen.
Proof.
  revert seen. induction l as [|c l IH]; intros seen; simpl.
  - split; [constructor | by intros x ?%elem_of_nil].
  - destruct (IH (c :: seen)) as [Hnd Hin]. case_bool_decide as Hc; simpl.
    + split; [done |]. intros x Hx Hs. apply (Hin x Hx). by right.
    + split.
      * constructor; [|done]. intros Hx. apply (Hin c Hx). by left.
      * intros x [->|Hx]%elem_of_cons; [done |].
        intros Hs. apply (Hin x Hx). by right.
Qed.

Lemma drop_duplicate_columns_spec t :
  rectangular t →
  NoDup (columns (Frame.drop_duplicate_columns t)) ∧
  rectangular (Frame.drop_duplicate_columns t).
Proof.
  intros Hr. unfold Frame.drop_duplicate_columns. split.
  - cbn [columns]. apply first_occurrence_NoDup.
  - unfold rectangular. cbn [columns rows]. apply Forall_fmap.
    eapply Forall_impl; [exact Hr |]. intros r Hlen. by apply select_length.
Qed.

Lemma cell_at_overwrite labels c v r :
  c ∈ labels → length r = length labels →
  Frame.cell_at labels (Frame.overwrite labels c v r) c = Some v.
Proof.
  revert r. induction labels as [|l labels IH]; intros r Hc Hlen.
  - by apply elem_of_nil in Hc.
  - destruct r as [|x r]; [discriminate |]. simpl.
    destruct (String.eqb l c) eqn:E; [done |].
    apply String.eqb_neq in E. apply elem_of_cons in Hc as [->|Hc]; [done |].
    apply IH; [done | by injection Hlen].
Qed.

Lemma cell_at_appended labels c v r :
  c ∉ labels → length r = length labels →
  Frame.cell_at (labels ++ [c]) (r ++ [v]) c = Some v.
Proof.
  revert r. induction labels as [|l labels IH]; intros r Hc Hlen.
  - destruct r; [|discriminate]. simpl. by rewrite String.eqb_refl.
  - destruct r as [|x r]; [discriminate |]. simpl.
    apply not_elem_of_cons in Hc as [Hne Hc].
    destruct (String.eqb l c) eqn:E; [by apply String.eqb_eq in E |].
    apply IH; [done | by injection Hlen].
Qed.

Lemma filter_eq_absent (c : string) (l : list string) :
  c ∉ l → filter (fun x => x = c) l = [].
Proof.
  induction l as [|x l IH]; [done |].
  intros [Hne Hc]%not_elem_of_cons. rewrite filter_cons_False by congruence. auto.
Qed.

Lemma filter_eq_NoDup (c : string) (l : list string) :
  NoDup l → length (filter (fun x => x = c) l) ≤ 1.
Proof.
  induction 1 as [|x l Hx Hnd IH]; [simpl; lia |].
  rewrite filter_cons. case_decide as Hc; [|done]. subst x.
  rewrite filter_eq_absent by done. simpl. lia.
Qed.

(** A table built from a response, with its duplicate columns dropped
    and its year column set, is empty or sorts under that year. *)
Lemma set_year_tagged t y :
  rectangular t → NoDup (columns t) →
  tagged y (Frame.set_column t "Year" (CInt y)).
Proof.
  intros Hrect Hnd. unfold tagged.
  destruct (Frame.empty (Frame.set_column t "Year" (CInt y))) eqn:Eempty;
    [by left | right].
  unfold sort_key. rewrite Eempty. unfold Frame.set_column in *.
  unfold Frame.has_column in *. unfold Frame.empty in Eempty.
  apply orb_false_elim in Eempty as [_ Erows].
  case_bool_decide as Hin; cbn [columns rows] in *.
  - rewrite bool_decide_eq_true_2 by done. cbn [andb negb].
    pose proof (filter_eq_NoDup "Year" _ Hnd) as Hcount.
    destruct (1 <? _) eqn:E; [apply Nat.ltb_lt in E; lia |].
    destruct (rows t) as [|r rs] eqn:Er; [done |].
    cbn [map]. unfold rectangular in Hrect. rewrite Er in Hrect.
    apply Forall_cons in Hrect as [Hlen _].
    by rewrite cell_at_overwrite.
  - rewrite bool_decide_eq_true_2 by (apply elem_of_app; right; by left).
    cbn [andb negb].
    assert (Hnd' : NoDup (columns t ++ ["Year"])).
    { apply NoDup_app. split_and!; [done | | apply NoDup_singleton].
      intros x Hx ->%list_elem_of_singleton. done. }
    pose proof (filter_eq_NoDup "Year" _ Hnd') as Hcount.
    destruct (1 <? _) eqn:E; [apply Nat.ltb_lt in E; lia |].
    destruct (rows t) as [|r rs] eqn:Er; [done |].
    cbn [map]. unfold rectangular in Hrect. rewrite Er in Hrect.
    apply Forall_cons in Hrect as [Hlen _].
    by rewrite cell_at_appended.
Qed.

Lemma only_sent_refl st : only_sent st st.
Proof. done. Qed.

Lemma only_sent_trans a b c : only_sent a b → only_sent b c → only_sent a c.
Proof. unfold only_sent. intros (?&?&?&?) (?&?&?&?). split_and!; congruence. Qed.

Lemma lru_find_elem_of k l v : Lru.find k l = Some v → (k, v) ∈ l.
Proof.
  induction l as [|[k' v'] l IH]; simpl; [done |].
  case_bool_decide as E.
  - intros [= ->]. subst. by left.
  - intros H. right. by apply IH.
Qed.

Lemma lru_remove_subseteq k l : Lru.remove k l ⊆ l.
Proof.
  induction l as [|[k' v'] l IH]; simpl; [done |].
  case_bool_decide.
  - by apply list_subseteq_cons.
  - by apply list_subseteq_skip.
Qed.

Lemma caches_tagged_init : caches_tagged init_state.
Proof.
  split.
  - intros k l H. by apply elem_of_nil in H.
  - intros k l ts H. simpl in H. by apply lookup_empty_Some in H.
Qed.

Lemma table_at_grows st st' l :
  heap_grows st st' → l < length (heap st) → table_at st' l = table_at st l.
Proof.
  intros [h Hh] Hl. unfold table_at. rewrite Hh. by rewrite lookup_app_l.
Qed.

(** The invariant carries over to a state whose heap has grown, given
    what its caches hold. *)
Lemma caches_tagged_grows st st' :
  caches_tagged st → heap_grows st st' →
  lru st' ⊆ lru st → _cache st' = _cache st → caches_tagged st'.
Proof.
  intros [Hlru Hc] Hg Hsub Heq.
  assert (Hlen : length (heap st) ≤ length (heap st')).
  { destruct Hg as [h ->]. rewrite length_app. lia. }
  split.
  - intros k l Hin. destruct (Hlru k l (Hsub _ Hin)) as [Hl Ht].
    split; [lia |]. by rewrite (table_at_grows _ _ _ Hg Hl).
  - intros k l ts Hin. rewrite Heq in Hin. destruct (Hc k l ts Hin) as [Hl Ht].
    split; [lia |]. by rewrite (table_at_grows _ _ _ Hg Hl).
Qed.

Section Tagged.

Variable API_KEY : string.
Variable upstream : Upstream.

Lemma only_sent_SESSION_get url p t :
  steps only_sent (SESSION_get upstream url p t).
Proof. apply steps_SESSION_get. by intros st s. Qed.

(** A successful run of the function under the decorator allocates one
    table, tagged with the year of the request, and otherwise only
    sends. *)
Lemma wrapped_inv k st l st' :
  _call_api_cached__wrapped__ API_KEY upstream k st = (Ok l, st') →
  ∃ t, l = length (heap st) ∧ heap st' = heap st ++ [t] ∧
       lru st' = lru st ∧ _cache st' = _cache st ∧
       tagged (year_of_key k) t.
Proof.
  destruct k as [[[[year code_eff] dataset] for_val] in_val].
  unfold _call_api_cached__wrapped__. intros H.
  apply bind_Ok_inv in H as (r0 & s1 & H1 & H).
  apply bind_Ok_inv in H as (r & s2 & H2 & H).
  apply bind_Ok_inv in H as (u & s3 & H3 & H).
  apply bind_Ok_inv in H as (df & s4 & H4 & H).
  apply only_sent_SESSION_get in H1.
  assert (Hs2 : only_sent s1 s2).
  { match type of H2 with
    | ?c s1 = _ => assert (Hq : steps only_sent c)
    end; [|by apply Hq in H2].
    pose proof only_sent_SESSION_get as Hget.
    repeat first
      [ apply Hget
      | apply steps_ret; exact only_sent_refl
      | apply steps_bind; [exact only_sent_trans | | intros ?]
      | match goal with
        | |- steps _ (if ?b then _ else _) => destruct b
        end ]. }
  apply (steps_raise_for_status only_sent _ only_sent_refl) in H3.
  apply (steps_frame_of_json only_sent _ only_sent_refl) in H4 as Hs4.
  pose proof (only_sent_trans _ _ _ H1
                (only_sent_trans _ _ _ Hs2 (only_sent_trans _ _ _ H3 Hs4)))
    as (Hh & Hl & Hc & _).
  injection H as <- <-. eexists. simpl. rewrite Hh, Hl, Hc.
  split_and!; [done.. |].
  unfold year_of_key. simpl.
  unfold frame_of_json in H4.
  destruct (json r) as [[header data|]|]; [| discriminate..].
  destruct (Frame.DataFrame data header) as [t|] eqn:Et; [|discriminate].
  injection H4 as <- _.
  apply DataFrame_rectangular in Et.
  destruct (drop_duplicate_columns_spec _ Et) as [Hnd Hrect].
  by apply set_year_tagged.
Qed.

Lemma call_api_eq year code geo :
  call_api API_KEY upstream year code geo =
  Lru.lru_cache 4096 (_call_api_cached__wrapped__ API_KEY upstream)
    (year, (resolve code geo).1, (resolve code geo).2, geo !! "for", geo !! "in").
Proof. reflexivity. Qed.

Lemma lru_cache_tagged k st l st' :
  caches_tagged st →
  Lru.lru_cache 4096 (_call_api_cached__wrapped__ API_KEY upstream) k st
    = (Ok l, st') →
  caches_tagged st' ∧ heap_grows st st' ∧ _cache st' = _cache st ∧
  l < length (heap st') ∧ tagged (year_of_key k) (table_at st' l).
Proof.
  intros Hinv. unfold Lru.lru_cache.
  destruct (Lru.find k (lru st)) as [v|] eqn:Efind.
  - intros [= <- <-]. apply lru_find_elem_of in Efind.
    destruct Hinv as [Hlru Hc]. destruct (Hlru _ _ Efind) as [Hv Ht].
    split_and!;
      [| by (exists []; simpl; rewrite app_nil_r) | done | done | done].
    split; [|exact Hc].
    intros k' l' Hin. simpl in Hin.
    apply elem_of_cons in Hin as [Heq|Hin].
    + injection Heq as -> ->. by apply Hlru.
    + by apply Hlru, (lru_remove_subseteq k).
  - destruct (_call_api_cached__wrapped__ API_KEY upstream k st)
      as [[v|e] s] eqn:E; [|by intros [=]].
    intros [= <- <-].
    destruct (wrapped_inv _ _ _ _ E) as (t & -> & Hh & Hl & Hc & Ht).
    assert (Hg : heap_grows st s) by by exists [t].
    assert (Hinv' : caches_tagged s).
    { apply (caches_tagged_grows st); [done.. | by rewrite Hl | done]. }
    assert (Hnew : table_at s (length (heap st)) = t).
    { unfold table_at. rewrite Hh, lookup_app_r by lia.
      by rewrite Nat.sub_diag. }
    split_and!; [| done | done | simpl; rewrite Hh, length_app; simpl; lia |].
    2: { change (tagged (year_of_key k) (table_at s (length (heap st)))).
         by rewrite Hnew. }
    destruct Hinv' as [Hlru' Hc']. split; [|exact Hc'].
    intros k' l' Hin. simpl in Hin.
    apply elem_of_cons in Hin as [Heq|Hin];
      [|by apply Hlru', (subseteq_take 4095)].
    injection Heq as -> ->.
    split; [simpl; rewrite Hh, length_app; simpl; lia |].
    change (tagged (year_of_key k) (table_at s (length (heap st)))).
    by rewrite Hnew.
Qed.

Lemma call_api_tagged year code geo st l st' :
  caches_tagged st →
  call_api API_KEY upstream year code geo st = (Ok l, st') →
  caches_tagged st' ∧ heap_grows st st' ∧ _cache st' = _cache st ∧
  l < length (heap st') ∧ tagged year (table_at st' l).
Proof. rewrite call_api_eq. apply lru_cache_tagged. Qed.

(** Calls of [call_api_ttl] keep the invariant and return an allocated
    table tagged with the requested year. *)
Lemma call_api_ttl_tagged year code geo ttl now st l st' :
  caches_tagged st →
  call_api_ttl API_KEY upstream year code geo ttl now st = (Ok l, st') →
  caches_tagged st' ∧ l < length (heap st') ∧ tagged year (table_at st' l).
Proof.
  intros Hinv. rewrite call_api_ttl_eq.
  assert (Hrefresh :
    call_api_ttl_refresh API_KEY upstream (request_key year code geo)
      year code geo now st = (Ok l, st') →
    caches_tagged st' ∧ l < length (heap st') ∧ tagged year (table_at st' l)).
  { rewrite call_api_ttl_refresh_eq.
    destruct (call_api API_KEY upstream year code geo st) as [[df|e] s] eqn:E;
      [|discriminate].
    intros [= <- <-].
    destruct (call_api_tagged _ _ _ _ _ _ Hinv E) as (Hinv' & _ & _ & Hdf & Ht).
    set (s' := set_heap (heap s ++ [table_at s df]) s).
    assert (Hg : heap_grows s s') by by eexists.
    assert (Hinv'' : caches_tagged s') by by apply (caches_tagged_grows s).
    split_and!.
    - destruct Hinv'' as [Hlru Hc]. split; [exact Hlru |].
      intros k l ts. cbn [_cache set_cache].
      destruct (decide (request_key year code geo = k)) as [<-|Hne].
      + rewrite lookup_insert_eq. intros [= <- <-]. split.
        * cbn. rewrite length_app. simpl. lia.
        * change (tagged year (table_at s' (length (heap s)))).
          unfold s'. by rewrite table_at_alloc_new.
      + rewrite lookup_insert_ne by done. apply Hc.
    - cbn. rewrite length_app. lia.
    - change (tagged year (table_at s' df)).
      by rewrite (table_at_grows _ _ _ Hg Hdf). }
  destruct (_cache st !! request_key year code geo) as [[df ts]|] eqn:Ehit;
    [|done].
  destruct (_ <? _)%Z; [|done].
  intros [= <- <-].
  set (s' := set_heap (heap st ++ [table_at st df]) st).
  assert (Hg : heap_grows st s') by by eexists.
  split_and!.
  - by apply (caches_tagged_grows st).
  - cbn. rewrite length_app. simpl. lia.
  - unfold s'. rewrite table_at_alloc_new.
    destruct Hinv as [_ Hc]. by destruct (Hc _ _ _ Ehit).
Qed.

End Tagged.

Lemma Forall2_sort_key_fmap st (l : list nat) (ks : list Z) :
  Forall2 (fun d k => sort_key (table_at st d) = Ok k) l ks →
  ks = map (fun d => match sort_key (table_at st d) with Ok k => k | Raise _ => 0%Z end) l.
Proof. induction 1 as [|d k l ks H _ IH]; simpl; [done |]. by rewrite H, <- IH. Qed.

Section Ordering.

Variable API_KEY : string.
Variable upstream : Upstream.

(** Starting from caches that carry the years of their keys, the loop
    collects, in the order of completion, the tables of the workers
    whose result has rows, each sorting under the year of its worker. *)
Lemma gather_tagged code geo completion :
  ∀ frames st out st',
    caches_tagged st →
    gather API_KEY upstream code geo completion frames st = (Ok out, st') →
    ∃ added ys,
      out = frames ++ added ∧
      Forall2 (fun d y => sort_key (table_at st' d) = Ok y) added ys ∧
      sublist ys (map fst completion).
Proof.
  induction completion as [|[y now] rest IH]; simpl; intros frames st out st' Hinv H.
  - injection H as <- <-. exists [], []. by rewrite app_nil_r.
  - destruct (call_api_ttl API_KEY upstream y code geo _TTL_MINUTES now st)
      as [[df|e] s] eqn:E; [|discriminate].
    destruct (call_api_ttl_tagged _ _ _ _ _ _ _ _ _ _ Hinv E) as (Hinv' & Hdf & Ht).
    destruct (gather_inv _ _ _ _ _ _ _ _ _ H) as (Hg & _).
    destruct (Frame.empty (table_at s df)) eqn:Eempty;
      destruct (IH _ _ _ _ Hinv' H) as (added & ys & -> & Hkeys & Hsub).
    + exists added, ys. split_and!; [done | done | by apply sublist_cons].
    + exists (df :: added), (y :: ys). rewrite <- app_assoc.
      split_and!; [done | | by apply sublist_skip].
      constructor; [|done].
      rewrite (table_at_grows _ _ _ Hg Hdf).
      destruct Ht as [Ht|Ht]; [congruence | done].
Qed.

(** C7. Whatever the order in which the workers complete,
    [call_api_ttl_many] returns its frames in ascending order of the
    key it sorts by, the embedded year of a frame (every returned frame
    has rows). With caches that carry the years of their keys, as they
    do from an empty start, the keys are requested years, one for every
    worker whose table has rows, in the order of completion before the
    sort. When the keys are pairwise distinct,
    the returned list is what the sort makes of these frames in any
    other order of collection. *)
Theorem call_api_ttl_many_sorted_by_year
    years code geo ttl completion st frames st' :
  map fst completion ≡ₚ years →
  call_api_ttl_many API_KEY upstream years code geo ttl completion st
    = (Ok frames, st') →
  ∃ ks,
    Forall2 (fun d k => sort_key (table_at st' d) = Ok k) frames ks ∧
    StronglySorted Z.le ks ∧
    Forall (non_empty_at st') frames ∧
    (caches_tagged st →
       Forall (fun k => k ∈ years) ks ∧
       ∃ ys, sublist ys (map fst completion) ∧ ks ≡ₚ ys) ∧
    (NoDup ks → ∀ fs, fs ≡ₚ frames → sort_frames fs st' = (Ok frames, st')).
Proof.
  intros Hsched H.
  destruct (call_api_ttl_many_inv _ _ _ _ _ _ _ _ _ _ H) as (_ & Hne & _).
  unfold call_api_ttl_many in H. destruct (_ =? 0); [discriminate |].
  apply bind_Ok_inv in H as (fs0 & s & Hgather & Hsort).
  pose proof Hsort as Hsort'.
  apply sort_frames_inv in Hsort' as (Hst & Hperm & ks & Hks & Hsorted).
  subst s. exists ks. split_and!; [done | done | done | |].
  - intros Hinv.
    destruct (gather_tagged _ _ _ _ _ _ _ Hinv Hgather) as (added & ys & Ha & Hys & Hsub).
    simpl in Ha. subst added.
    assert (Hp : ks ≡ₚ ys).
    { rewrite (Forall2_sort_key_fmap _ _ _ Hks), (Forall2_sort_key_fmap _ _ _ Hys).
      by apply fmap_Permutation. }
    split; [|by exists ys].
    apply Forall_forall. intros k Hk. rewrite <- Hsched.
    apply (sublist_subseteq _ _ Hsub). by rewrite <- Hp.
  - intros Hnd fs Hfs. rewrite <- Hsort.
    unfold sort_frames in Hsort.
    destruct (keyed st' fs0) as [kl|e] eqn:Ek; [|discriminate].
    apply (sort_frames_order_free st' fs0 fs kl); [by rewrite Hfs | done |].
    injection Hsort as <-.
    assert (Hkeys : map fst (PyList.sort_by_key kl) = ks).
    { clear -Hks Ek. apply keyed_inv in Ek as [_ Hf].
      rewrite <- (sort_by_key_perm kl) in Hf.
      revert ks Hks. induction Hf as [|p l Hp _ IH]; intros ks Hks; simpl in *.
      - by inversion Hks.
      - inversion Hks as [|? k ? ks' Hk Hks']; subst. f_equal; [congruence | auto]. }
    rewrite <- (sort_by_key_perm kl). by rewrite Hkeys.
Qed.

End Ordering.

(** ** Instances *)

(** The repeated call after a first call on empty caches. *)
Lemma call_api_ttl_repeat_within_ttl_witness :
  let st1 :=
    (call_api_ttl Sample.KEY Sample.census 2023 "DP05_0001E" CITY_GEO 60 0
       init_state).2 in
  ∃ stored ts,
    _cache st1 !! request_key 2023 "DP05_0001E" CITY_GEO = Some (stored, ts) ∧
    ∀ ttl2 now2, (now2 - ts < timedelta_minutes ttl2)%Z →
      ∃ r2 st2,
        call_api_ttl Sample.KEY Sample.census 2023 "DP05_0001E" CITY_GEO ttl2 now2 st1
          = (Ok r2, st2) ∧
        table_at st2 r2 = table_at st1 0 ∧
        sent st2 = sent st1.
Proof.
  intros st1.
  apply (call_api_ttl_repeat_within_ttl Sample.KEY Sample.census 2023 "DP05_0001E"
           CITY_GEO 60 0 init_state 0 st1).
  vm_compute. reflexivity.
Defined.

(** The years 2021, 2023, 2022 completing in the order 2023, 2022, 2021:
    the frames come back as those of 2021, 2022, 2023. *)
Lemma call_api_ttl_many_sorted_by_year_witness :
  let run :=
    call_api_ttl_many Sample.KEY Sample.census [2021; 2023; 2022]%Z "B01003_001E"
      US_GEO 60 [(2023, 0); (2022, 1); (2021, 2)]%Z init_state in
  run.1 = Ok [4; 2; 0] ∧
  map (fun d => sort_key (table_at run.2 d)) [4; 2; 0]
    = [Ok 2021; Ok 2022; Ok 2023]%Z ∧
  ∃ ks,
    Forall2 (fun d k => sort_key (table_at run.2 d) = Ok k) [4; 2; 0] ks ∧
    StronglySorted Z.le ks ∧
    Forall (non_empty_at run.2) [4; 2; 0] ∧
    (caches_tagged init_state →
       Forall (fun k => k ∈ [2021; 2023; 2022]%Z) ks ∧
       ∃ ys, sublist ys (map fst [(2023, 0); (2022, 1); (2021, 2)]%Z) ∧ ks ≡ₚ ys) ∧
    (NoDup ks → ∀ fs, fs ≡ₚ [4; 2; 0] → sort_frames fs run.2 = (Ok [4; 2; 0], run.2)).
Proof.
  intros run. split; [vm_compute; reflexivity |].
  split; [vm_compute; reflexivity |].
  apply (call_api_ttl_many_sorted_by_year Sample.KEY Sample.census
           [2021; 2023; 2022]%Z "B01003_001E" US_GEO 60
           [(2023, 0); (2022, 1); (2021, 2)]%Z init_state [4; 2; 0] run.2).
  - refine (bool_decide_unpack _ _). vm_compute. exact I.
  - vm_compute. reflexivity.
Defined.

(** C10. [call_api_ttl_many] returns only frames that have rows, so the
    list has at most one frame per requested year and may have fewer: a
    worker whose table is empty adds no element and raises nothing, the
    loop going on as if that worker had not been there. For the years
    2021 and 2022, where the upstream publishes no row for 2022, the list
    returned has the one frame that a request for 2021 alone returns. *)
Theorem call_api_ttl_many_omits_empty_years :
  (∀ API_KEY upstream years code geo ttl completion st frames st',
     map fst completion ≡ₚ years →
     call_api_ttl_many API_KEY upstream years code geo ttl completion st
       = (Ok frames, st') →
     Forall (non_empty_at st') frames ∧ length frames ≤ length years) ∧
  (∀ API_KEY upstream code geo y now rest frames st df st1,
     call_api_ttl API_KEY upstream y code geo _TTL_MINUTES now st = (Ok df, st1) →
     Frame.empty (table_at st1 df) = true →
     gather API_KEY upstream code geo ((y, now) :: rest) frames st
     = gather API_KEY upstream code geo rest frames st1) ∧
  (let both :=
     call_api_ttl_many Sample.KEY Sample.no_rows_2022 [2021; 2022]%Z "B01003_001E"
       US_GEO 60 [(2021, 0); (2022, 1)]%Z init_state in
   let alone :=
     call_api_ttl_many Sample.KEY Sample.no_rows_2022 [2021]%Z "B01003_001E"
       US_GEO 60 [(2021, 0)]%Z init_state in
   both.1 = Ok [0] ∧ alone.1 = Ok [0] ∧
   table_at both.2 0 = table_at alone.2 0 ∧
   length [0] < length [2021; 2022]%Z).
Proof.
  split_and!.
  - intros API_KEY upstream years code geo ttl completion st frames st' Hsched H.
    destruct (call_api_ttl_many_inv _ _ _ _ _ _ _ _ _ _ H) as (Hlen & Hne & _).
    split; [done |]. by rewrite <- Hsched, length_map.
  - intros. by eapply gather_skips_empty.
  - vm_compute. split_and!; reflexivity.
Qed.

(** ** Tidy reshaper *)









Section TidyProps.

Variable to_float : string -> option Qc.



End TidyProps.


(** ** Multi-variable batching *)






Section Batched.

Variable API_KEY : string.
Variable upstream : Upstream.


















(** *** The TTL cache of the batched path *)







End Batched.


(** ** The [lru_cache] store under the TTL cache *)

Section LruUnderTtl.

Variable API_KEY : string.
Variable upstream : Upstream.

Lemma lru_find_head k v l : Lru.find k ((k, v) :: l) = Some v.
Proof. simpl. by rewrite bool_decide_eq_true_2. Qed.

(** A request whose arguments are in the [lru_cache] store is answered
    from it: nothing is sent, whatever the age of the stored table. *)
Lemma call_api_answers_from_lru year code geo st v :
  Lru.find (request_key year code geo) (lru st) = Some v →
  ∃ st', call_api API_KEY upstream year code geo st = (Ok v, st') ∧
         sent st' = sent st ∧ heap st' = heap st ∧ _cache st' = _cache st.
Proof.
  intros H. rewrite call_api_eq. unfold Lru.lru_cache.
  fold (request_key year code geo). rewrite H. by eexists.
Qed.

(** When [call_api] returns, the object it returned is the one stored
    under the arguments of the request. *)
Lemma call_api_stores_result year code geo st r st' :
  call_api API_KEY upstream year code geo st = (Ok r, st') →
  Lru.find (request_key year code geo) (lru st') = Some r.
Proof.
  rewrite call_api_eq. unfold Lru.lru_cache. fold (request_key year code geo).
  destruct (Lru.find (request_key year code geo) (lru st)) as [v|].
  - intros [= <- <-]. apply lru_find_head.
  - destruct (_call_api_cached__wrapped__ _ _ _ st) as [[v|e] s]; [|by intros [=]].
    intros [= <- <-]. apply lru_find_head.
Qed.

(** An expired entry of [_cache] whose request is still in the
    [lru_cache] store is refreshed without a request: the stored object
    is returned and a copy of it is filed under the new time. *)
Lemma call_api_ttl_expired_answers_from_lru year code geo ttl now st v df ts :
  Lru.find (request_key year code geo) (lru st) = Some v →
  _cache st !! request_key year code geo = Some (df, ts) →
  (timedelta_minutes ttl ≤ now - ts)%Z →
  ∃ st',
    call_api_ttl API_KEY upstream year code geo ttl now st = (Ok v, st') ∧
    sent st' = sent st ∧
    ∃ c, _cache st' !! request_key year code geo = Some (c, now) ∧
         table_at st' c = table_at st v.
Proof.
  intros Hlru Hhit Hage. rewrite call_api_ttl_eq, Hhit.
  apply Z.ltb_ge in Hage. rewrite Hage. rewrite call_api_ttl_refresh_eq.
  destruct (call_api_answers_from_lru _ _ _ _ _ Hlru) as (s & -> & Hs & Hh & Hc).
  eexists. split; [reflexivity |]. split; [done |].
  exists (length (heap s)). split; [simpl; apply lookup_insert_eq |].
  change (table_at (set_heap (heap s ++ [table_at s v]) s) (length (heap s))
          = table_at st v).
  rewrite table_at_alloc_new. unfold table_at. by rewrite Hh.
Qed.

(** On a miss or an expiry, the reference [call_api_ttl] returns is the
    one the [lru_cache] store holds; the copy goes into [_cache]. *)
Lemma call_api_ttl_refresh_returns_stored_object key year code geo now st r st' :
  call_api_ttl_refresh API_KEY upstream key year code geo now st = (Ok r, st') →
  Lru.find (request_key year code geo) (lru st') = Some r.
Proof.
  rewrite call_api_ttl_refresh_eq.
  destruct (call_api API_KEY upstream year code geo st) as [[df|e] s] eqn:E;
    [|discriminate].
  intros [= <- <-]. simpl. by apply call_api_stores_result in E.
Qed.

(** The function under the decorator sends at most three requests: the
    first attempt and two more. *)
Lemma wrapped_sends_at_most_three k :
  sends 3 (_call_api_cached__wrapped__ API_KEY upstream k).
Proof.
  destruct k as [[[[year code_eff] dataset] for_val] in_val].
  unfold _call_api_cached__wrapped__.
  apply (sends_bind 1 2); [apply sends_SESSION_get | intros r0].
  apply (sends_bind 2 0).
  - destruct (_ && _); [|apply (sends_weaken 0); [lia | apply sends_ret]].
    apply (sends_bind 1 1).
    + destruct (_ && _); [apply sends_SESSION_get |].
      destruct (_ && _); [apply sends_SESSION_get |].
      apply (sends_weaken 0); [lia | apply sends_ret].
    + intros r1. destruct (_ =? _)%Z; [|apply (sends_weaken 0); [lia | apply sends_ret]].
      destruct (has_key _ _); apply sends_SESSION_get.
  - intros r. apply (sends_bind 0 0); [apply sends_raise_for_status | intros _].
    apply (sends_bind 0 0); [apply sends_frame_of_json | intros df].
    apply sends_alloc.
Qed.

End LruUnderTtl.

(** * Further properties *)

(** ** Requests of the executor *)

Lemma adds_refl P st : adds P 0 st st.
Proof. exists []. by rewrite app_nil_r. Qed.

Lemma adds_weaken P n m st st' : n ≤ m → adds P n st st' → adds P m st st'.
Proof. intros Hle (new & ? & ? & ?). exists new. split_and!; [done | lia | done]. Qed.

Lemma adds_trans P n m a b c : adds P n a b → adds P m b c → adds P (n + m) a c.
Proof.
  intros (n1 & E1 & L1 & F1) (n2 & E2 & L2 & F2). exists (n1 ++ n2).
  rewrite E2, E1, app_assoc, length_app. split_and!; [done | lia |].
  by apply Forall_app.
Qed.

Lemma steps_adds_bind {A B} P n m (c : M A) (k : A -> M B) :
  steps (adds P n) c → (∀ a, steps (adds P m) (k a)) → steps (adds P (n + m)) (bind c k).
Proof.
  intros Hc Hk st r st' H.
  destruct (bind_inv _ _ _ _ _ H) as [(a & s & H1 & H2)|(e & H1 & _)].
  - eapply adds_trans; [eapply Hc, H1 | eapply Hk, H2].
  - eapply adds_weaken; [|eapply Hc, H1]. lia.
Qed.

Lemma steps_adds_weaken {A} P n m (c : M A) :
  n ≤ m → steps (adds P n) c → steps (adds P m) c.
Proof. intros Hle Hc st r st' H. eapply adds_weaken; [done | eapply Hc, H]. Qed.

Lemma steps_adds_ret {A} P (a : A) : steps (adds P 0) (ret a).
Proof. apply steps_ret. apply adds_refl. Qed.

Section ExecutorRequests.

Variable API_KEY : string.
Variable upstream : Upstream.

Lemma steps_adds_SESSION_get (P : Request -> Prop) url p t :
  P (mkRequest url p t) → steps (adds P 1) (SESSION_get upstream url p t).
Proof.
  intros HP st r st' H. apply SESSION_get_inv in H as ->.
  exists [mkRequest url p t]. split_and!; [done | done | by constructor].
Qed.

Lemma executor_params_base year code_eff dataset for_val in_val :
  executor_params API_KEY (year, code_eff, dataset, for_val, in_val)
    (let params : gmap string string :=
       <["get" := PyStr.join "," ["NAME"; code_eff]]> (<["key" := API_KEY]> ∅) in
     let params :=
       if PyStr.truthy for_val then <["for" := default "" for_val]> params else params in
     if PyStr.truthy in_val then <["in" := default "" in_val]> params else params).
Proof.
  unfold executor_params.
  destruct for_val as [[|a s]|], in_val as [[|b t]|]; simpl;
    split_and!; simplify_map_eq; auto.
Qed.

Lemma executor_params_add k p :
  executor_params API_KEY k p → executor_params API_KEY k (<["in" := "state:06"]> p).
Proof.
  destruct k as [[[[year code_eff] dataset] for_val] in_val].
  intros (Hget & Hkey & Hfor & Hin). split_and!; simplify_map_eq; auto.
Qed.

Lemma executor_params_remove k p :
  executor_params API_KEY k p → executor_params API_KEY k (delete "in" p).
Proof.
  destruct k as [[[[year code_eff] dataset] for_val] in_val].
  intros (Hget & Hkey & Hfor & Hin). split_and!; simplify_map_eq; auto.
Qed.

(** What a run of the function under the decorator sends: at most three
    requests, one when the for-clause is not a ZCTA one, each of the
    shape the arguments determine. *)
Lemma wrapped_adds k :
  steps (adds (executor_request API_KEY k)
           (if PyStr.startswith (default "" k.1.2) "zip code tabulation area:"
            then 3 else 1))
    (_call_api_cached__wrapped__ API_KEY upstream k).
Proof.
  destruct k as [[[[year code_eff] dataset] for_val] in_val]. cbn [fst snd].
  pose proof (executor_params_base year code_eff dataset for_val in_val) as Hbase.
  unfold _call_api_cached__wrapped__. cbv zeta in Hbase.
  match goal with
  | |- steps _ (bind (SESSION_get _ ?u ?p _) _) => set (url := u); set (params := p) in *
  end.
  clearbody params.
  set (k := (year, code_eff, dataset, for_val, in_val)) in *.
  assert (Hreq : ∀ p, executor_params API_KEY k p →
                      steps (adds (executor_request API_KEY k) 1)
                            (SESSION_get upstream url p 15)).
  { intros p Hp. apply steps_adds_SESSION_get. by split_and!. }
  set (zcta := PyStr.startswith (default "" for_val) "zip code tabulation area:").
  set (q := if zcta then 2 else 0).
  apply (steps_adds_weaken _ (1 + (q + 0))); [unfold q; destruct zcta; lia |].
  apply steps_adds_bind; [by apply Hreq | intros r0].
  apply steps_adds_bind.
  - unfold q. destruct (status_code r0 =? 400)%Z; simpl;
      [|destruct zcta; by apply (steps_adds_weaken _ 0); [lia | apply steps_adds_ret]].
    destruct zcta; [|apply steps_adds_ret].
    apply (steps_adds_bind _ 1 1).
    + destruct (_ && _); [by apply Hreq, executor_params_add |].
      destruct (_ && _); [by apply Hreq, executor_params_remove |].
      apply (steps_adds_weaken _ 0); [lia | apply steps_adds_ret].
    + intros r1. destruct (_ =? _)%Z;
        [|apply (steps_adds_weaken _ 0); [lia | apply steps_adds_ret]].
      destruct (has_key _ _);
        [by apply Hreq, executor_params_remove | by apply Hreq, executor_params_add].
  - intros r.
    apply (steps_adds_bind _ 0 0);
      [apply steps_raise_for_status, adds_refl | intros _].
    apply (steps_adds_bind _ 0 0);
      [apply steps_frame_of_json, adds_refl | intros df].
    apply steps_alloc. intros st h. exists []. simpl. by rewrite app_nil_r.
Qed.

End ExecutorRequests.

(** ** Outcomes of the executor *)






Section ExecutorOutcomes.

Variable API_KEY : string.
Variable upstream : Upstream.

(** The two ways a run of the function under the decorator ends: with an
    exception, having done nothing but send; or with a new table built
    from a response that carries no error status. *)
Lemma wrapped_cases k st res st' :
  _call_api_cached__wrapped__ API_KEY upstream k st = (res, st') →
  (∃ e, res = Raise e ∧ only_sent st st') ∨
  (∃ r header data df,
     res = Ok (length (heap st)) ∧
     json r = Some (JRows header data) ∧
     Frame.DataFrame data header = Some df ∧
     ((400 <=? status_code r) && (status_code r <? 600))%Z = false ∧
     heap st' = heap st
                ++ [Frame.set_column (Frame.drop_duplicate_columns df) "Year"
                      (CInt (year_of_key k))] ∧
     lru st' = lru st ∧ _cache st' = _cache st ∧ _multi_cache st' = _multi_cache st).
Proof.
  destruct k as [[[[year code_eff] dataset] for_val] in_val].
  unfold _call_api_cached__wrapped__, year_of_key. cbn [fst]. intros H.
  apply bind_inv in H as [(r0 & s1 & H1 & H)|(e & H1 & ->)];
    apply only_sent_SESSION_get in H1; [|left; eauto].
  match type of H with
  | bind ?c _ s1 = _ => assert (Hq : steps only_sent c)
  end.
  { pose proof (only_sent_SESSION_get upstream) as Hget.
    repeat first
      [ apply Hget
      | apply steps_ret; exact only_sent_refl
      | apply steps_bind; [exact only_sent_trans | | intros ?]
      | match goal with
        | |- steps _ (if ?b then _ else _) => destruct b
        end ]. }
  apply bind_inv in H as [(r & s2 & H2 & H)|(e & H2 & ->)];
    apply Hq in H2; pose proof (only_sent_trans _ _ _ H1 H2) as H12;
    [|left; eauto].
  apply bind_inv in H as [(u & s3 & H3 & H)|(e & H3 & ->)].
  2: { left. exists e. split; [done |].
       apply (steps_raise_for_status only_sent _ only_sent_refl) in H3.
       by eapply only_sent_trans. }
  unfold raise_for_status in H3.
  destruct ((400 <=? status_code r) && (status_code r <? 600))%Z eqn:Estatus;
    [discriminate |]. injection H3 as _ <-.
  apply bind_inv in H as [(df & s4 & H4 & H)|(e & H4 & ->)].
  2: { left. exists e. split; [done |].
       apply (steps_frame_of_json only_sent _ only_sent_refl) in H4.
       by eapply only_sent_trans. }
  unfold frame_of_json in H4.
  destruct (json r) as [[header data|]|] eqn:Ejson; [| discriminate..].
  destruct (Frame.DataFrame data header) as [t|] eqn:Et; [|discriminate].
  injection H4 as <- <-. injection H as <- <-.
  destruct H12 as (Hh & Hl & Hc & Hm).
  right. exists r, header, data, t. simpl. rewrite Hh.
  by split_and!.
Qed.

End ExecutorOutcomes.

Section ExecutorProperties.

Variable API_KEY : string.
Variable upstream : Upstream.

Lemma cached_adds year code_eff dataset for_val in_val st res st' :
  let k : Key := (year, code_eff, dataset, for_val, in_val) in
  _call_api_cached API_KEY upstream year code_eff dataset for_val in_val st
    = (res, st') →
  ∃ new,
    sent st' = sent st ++ new ∧
    length new ≤ (if PyStr.startswith (default "" for_val) "zip code tabulation area:"
                  then 3 else 1) ∧
    Forall (executor_request API_KEY k) new ∧
    (is_Some (Lru.find k (lru st)) → new = []).
Proof.
  intros k. unfold _call_api_cached, Lru.lru_cache. fold k.
  destruct (Lru.find k (lru st)) as [v|] eqn:Efind.
  - intros [= _ <-]. exists []. simpl. rewrite app_nil_r.
    split_and!; [done | lia | done | done].
  - destruct (_call_api_cached__wrapped__ API_KEY upstream k st) as [r s] eqn:E.
    apply wrapped_adds in E as (new & Hs & Hl & Hf). cbn [fst snd] in Hl.
    intros H. exists new.
    assert (Hsent : sent st' = sent s) by (destruct r; by injection H as _ <-).
    rewrite Hsent. split_and!; [done | done | done |]. by intros [? [=]].
Qed.


(** X2. Every request [_call_api_cached] sends goes to
    [BASE/year/dataset] with the timeout 15 and carries [NAME] and the
    requested code under [get], the credential under [key] and the given
    for-clause; its in-clause is the given one, [state:06], or absent. *)
Theorem executor_requests_carry_arguments
    year code_eff dataset for_val in_val st res st' :
  _call_api_cached API_KEY upstream year code_eff dataset for_val in_val st
    = (res, st') →
  ∃ new,
    sent st' = sent st ++ new ∧
    Forall (executor_request API_KEY (year, code_eff, dataset, for_val, in_val)) new.
Proof.
  intros H. apply cached_adds in H as (new & Hs & _ & Hf & _). by exists new.
Qed.

(** X3. A call of [_call_api_cached] that raises has stored nothing: no
    table is allocated, the [lru_cache] store and both TTL caches are as
    before, and the arguments are still absent from the store, so the
    next identical call goes to the upstream again. *)
Theorem executor_failure_leaves_no_trace
    year code_eff dataset for_val in_val st e st' :
  _call_api_cached API_KEY upstream year code_eff dataset for_val in_val st
    = (Raise e, st') →
  only_sent st st' ∧
  Lru.find (year, code_eff, dataset, for_val, in_val) (lru st') = None.
Proof.
  unfold _call_api_cached, Lru.lru_cache.
  set (k := (year, code_eff, dataset, for_val, in_val)).
  destruct (Lru.find k (lru st)) as [v|] eqn:Efind; [by intros [=] |].
  destruct (_call_api_cached__wrapped__ API_KEY upstream k st) as [[v|e'] s] eqn:E;
    [by intros [=] |].
  intros [= -> <-].
  apply wrapped_cases in E as [(e' & _ & Hs)|(r & h & d & df & [=] & _)].
  split; [done |]. destruct Hs as (_ & -> & _). done.
Qed.

(** X4. Once [call_api] has returned for a year, code and geography, the
    next call with the same arguments returns the same object and sends
    nothing, whatever the upstream would answer by then. *)
Theorem call_api_repeated_is_memoized year code geo st r st1 :
  call_api API_KEY upstream year code geo st = (Ok r, st1) →
  ∃ st2,
    call_api API_KEY upstream year code geo st1 = (Ok r, st2) ∧
    sent st2 = sent st1 ∧ heap st2 = heap st1.
Proof.
  intros H. apply call_api_stores_result in H.
  destruct (call_api_answers_from_lru API_KEY upstream _ _ _ _ _ H)
    as (st2 & H2 & Hs & Hh & _).
  by exists st2.
Qed.


End ExecutorProperties.


Lemma executor_requests_carry_arguments_witness :
  let run :=
    _call_api_cached Sample.KEY Sample.always_unsupported 2023 "B01003_001E" "acs/acs5"
      (Some "zip code tabulation area:90802") (Some "state:06") init_state in
  ∃ new,
    sent run.2 = sent init_state ++ new ∧
    Forall (executor_request Sample.KEY
              (2023%Z, "B01003_001E", "acs/acs5",
               Some "zip code tabulation area:90802", Some "state:06")) new.
Proof.
  intros run.
  apply (executor_requests_carry_arguments Sample.KEY Sample.always_unsupported 2023
           "B01003_001E" "acs/acs5" (Some "zip code tabulation area:90802")
           (Some "state:06") init_state run.1 run.2).
  apply surjective_pairing.
Defined.

Lemma executor_failure_leaves_no_trace_witness :
  let run :=
    _call_api_cached Sample.KEY Sample.always_ambiguous 2023 "B01003_001E" "acs/acs5"
      (Some "zip code tabulation area:90802") None init_state in
  only_sent init_state run.2 ∧
  Lru.find (2023%Z, "B01003_001E", "acs/acs5",
            Some "zip code tabulation area:90802", None) (lru run.2) = None.
Proof.
  intros run.
  apply (executor_failure_leaves_no_trace Sample.KEY Sample.always_ambiguous 2023
           "B01003_001E" "acs/acs5" (Some "zip code tabulation area:90802") None
           init_state (HTTPError 400) run.2).
  vm_compute. reflexivity.
Defined.

Lemma call_api_repeated_is_memoized_witness :
  let st1 :=
    (call_api Sample.KEY Sample.census 2023 "DP05_0001E" CITY_GEO init_state).2 in
  ∃ st2,
    call_api Sample.KEY Sample.census 2023 "DP05_0001E" CITY_GEO st1 = (Ok 0, st2) ∧
    sent st2 = sent st1 ∧ heap st2 = heap st1.
Proof.
  intros st1.
  apply (call_api_repeated_is_memoized Sample.KEY Sample.census 2023 "DP05_0001E"
           CITY_GEO init_state 0 st1).
  vm_compute. reflexivity.
Defined.


(** ** The caches of the single-code path *)

Lemma table_at_mutate_ne st l r f :
  l ≠ r → table_at (mutate r f st) l = table_at st l.
Proof.
  intros Hne. unfold table_at, mutate. cbn [heap set_heap].
  by rewrite list_lookup_alter_ne.
Qed.

Lemma lru_find_None k l v : Lru.find k l = None → (k, v) ∉ l.
Proof.
  induction l as [|[k' v'] l IH]; simpl; [intros _; apply not_elem_of_nil |].
  case_bool_decide as E; [discriminate |].
  intros H [[= -> ->]|Hin]%elem_of_cons; [done | by apply (IH H)].
Qed.

Lemma lru_find_None_keys k l : Lru.find k l = None → k ∉ map fst l.
Proof.
  intros H [[k' v] [Hk Hin]]%list_elem_of_fmap. simpl in Hk. subst k'.
  by apply (lru_find_None k l v).
Qed.

Lemma lru_remove_keys k l : k ∉ map fst (Lru.remove k l).
Proof.
  induction l as [|[k' v'] l IH]; simpl; [apply not_elem_of_nil |].
  case_bool_decide as E; [done |]. simpl.
  apply not_elem_of_cons. split; [congruence | done].
Qed.

Lemma lru_remove_sublist k l : Lru.remove k l `sublist_of` l.
Proof.
  induction l as [|[k' v'] l IH]; simpl; [done |].
  case_bool_decide; [by apply sublist_cons | by apply sublist_skip].
Qed.

Lemma lru_remove_length k l v :
  Lru.find k l = Some v → length (Lru.remove k l) < length l.
Proof.
  induction l as [|[k' v'] l IH]; simpl; [done |].
  case_bool_decide as E.
  - intros _. pose proof (sublist_length _ _ (lru_remove_sublist k l)). lia.
  - intros H. specialize (IH H). simpl. lia.
Qed.

Section SingleCaches.

Variable API_KEY : string.
Variable upstream : Upstream.

(** The three ways a call of [call_api] ends. *)
Lemma call_api_cases year code geo st res st' :
  call_api API_KEY upstream year code geo st = (res, st') →
  let k := request_key year code geo in
  (∃ v, Lru.find k (lru st) = Some v ∧ res = Ok v ∧
        st' = set_lru ((k, v) :: Lru.remove k (lru st)) st) ∨
  (Lru.find k (lru st) = None ∧ ∃ e, res = Raise e ∧ only_sent st st') ∨
  (Lru.find k (lru st) = None ∧ res = Ok (length (heap st)) ∧
   ∃ t, heap st' = heap st ++ [t] ∧
        lru st' = take 4096 ((k, length (heap st)) :: lru st) ∧
        _cache st' = _cache st ∧ _multi_cache st' = _multi_cache st).
Proof.
  intros H k. rewrite call_api_eq in H. unfold Lru.lru_cache in H.
  fold (request_key year code geo) in H. fold k in H.
  destruct (Lru.find k (lru st)) as [v|] eqn:Efind.
  - left. injection H as <- <-. by exists v.
  - right.
    destruct (_call_api_cached__wrapped__ API_KEY upstream k st) as [r s] eqn:E.
    apply wrapped_cases in E
      as [(e & -> & Hs)|(r0 & h & d & df & -> & _ & _ & _ & Hh & Hl & Hc & Hm)].
    + left. injection H as <- <-. split; [done |]. by exists e.
    + right. injection H as <- <-. split; [done |]. split; [done |].
      eexists. cbn [heap lru _cache _multi_cache set_lru].
      rewrite Hl. by split_and!.
Qed.

Lemma call_api_separate year code geo st r st' :
  caches_separate st →
  call_api API_KEY upstream year code geo st = (Ok r, st') →
  caches_separate st' ∧ heap_grows st st' ∧ _cache st' = _cache st ∧
  r < length (heap st') ∧ (request_key year code geo, r) ∈ lru st'.
Proof.
  intros [Hlru Hc] H. pose proof (call_api_stores_result _ _ _ _ _ _ _ _ H) as Hin.
  apply lru_find_elem_of in Hin.
  apply call_api_cases in H as
    [(v & Hfind & [= <-] & ->)|[(_ & e & [=] & _)|(Hfind & [= ->] & t & Hh & Hl & Hcache & _)]].
  - apply lru_find_elem_of in Hfind.
    split_and!; [| by exists []; simpl; rewrite app_nil_r | done
                 | by apply (Hlru _ _ Hfind) | done].
    split.
    + intros k l [[= -> ->]|Hl]%elem_of_cons; [by apply (Hlru _ _ Hfind) |].
      by apply (Hlru k), (lru_remove_subseteq (request_key year code geo)).
    + intros k l ts Hk. destruct (Hc k l ts Hk) as [Hlt Hno].
      split; [done |]. intros k' [[= -> ->]|Hl]%elem_of_cons.
      * by apply (Hno _ Hfind).
      * by apply (Hno k'), (lru_remove_subseteq (request_key year code geo)).
  - assert (Hlen : length (heap st') = S (length (heap st)))
      by (rewrite Hh, length_app; simpl; lia).
    split_and!; [| by exists [t] | done | lia | done].
    split.
    + intros k l Hkl. rewrite Hl in Hkl. apply (subseteq_take 4096) in Hkl.
      apply elem_of_cons in Hkl as [[= -> ->]|Hkl]; [lia |].
      specialize (Hlru _ _ Hkl). lia.
    + intros k l ts Hk. rewrite Hcache in Hk. destruct (Hc k l ts Hk) as [Hlt Hno].
      split; [lia |]. intros k' Hkl. rewrite Hl in Hkl.
      apply (subseteq_take 4096) in Hkl.
      apply elem_of_cons in Hkl as [[= -> ->]|Hkl]; [lia | by apply (Hno k')].
Qed.

End SingleCaches.

Section TtlCache.

Variable API_KEY : string.
Variable upstream : Upstream.

Lemma caches_separate_alloc st t :
  caches_separate st → caches_separate (set_heap (heap st ++ [t]) st).
Proof.
  intros [Hlru Hc]. split.
  - intros k l Hkl. cbn in *. rewrite length_app. specialize (Hlru _ _ Hkl). lia.
  - intros k l ts Hk. cbn in *. destruct (Hc _ _ _ Hk) as [Hlt Hno].
    split; [rewrite length_app; lia | done].
Qed.

(** X6. Starting from caches that share no table, a call of
    [call_api_ttl] keeps them so, and the table it returns is none of the
    tables [_cache] stores: whatever the caller does to the returned
    table, every table stored in [_cache] stays as it is. *)
Theorem ttl_cache_entries_protected year code geo ttl now st r st' :
  caches_separate st →
  call_api_ttl API_KEY upstream year code geo ttl now st = (Ok r, st') →
  caches_separate st' ∧
  ∀ f k c ts,
    _cache st' !! k = Some (c, ts) →
    table_at (mutate r f st') c = table_at st' c.
Proof.
  intros Hsep. rewrite call_api_ttl_eq.
  assert (Hrefresh :
    call_api_ttl_refresh API_KEY upstream (request_key year code geo)
      year code geo now st = (Ok r, st') →
    caches_separate st' ∧
    ∀ f k c ts, _cache st' !! k = Some (c, ts) →
                table_at (mutate r f st') c = table_at st' c).
  { rewrite call_api_ttl_refresh_eq.
    destruct (call_api API_KEY upstream year code geo st) as [[df|e] s] eqn:E;
      [|discriminate].
    intros [= <- <-].
    destruct (call_api_separate _ _ _ _ _ _ _ _ Hsep E)
      as (Hsep' & _ & Hcache & Hdf & Hin).
    pose proof (caches_separate_alloc s (table_at s df) Hsep') as [Hlru Hc].
    assert (Hnew : ∀ k', (k', length (heap s)) ∉ lru s).
    { intros k' Hk'. destruct Hsep' as [Hl _]. specialize (Hl _ _ Hk'). lia. }
    assert (Hsep'' : caches_separate
      (set_cache (<[request_key year code geo := (length (heap s), now)]> (_cache s))
         (set_heap (heap s ++ [table_at s df]) s))).
    { split; [exact Hlru |]. intros k l ts. cbn [_cache set_cache].
      destruct (decide (request_key year code geo = k)) as [<-|Hne].
      - rewrite lookup_insert_eq. intros [= <- <-]. split; [|exact Hnew].
        cbn. rewrite length_app. simpl. lia.
      - rewrite lookup_insert_ne by done. apply Hc. }
    split; [exact Hsep'' |].
    intros f k c ts Hk. apply table_at_mutate_ne. intros ->.
    destruct Hsep'' as [_ Hc'']. destruct (Hc'' _ _ _ Hk) as [_ Hno].
    by apply (Hno (request_key year code geo)). }
  destruct (_cache st !! request_key year code geo) as [[df ts]|] eqn:Ehit; [|done].
  destruct (_ <? _)%Z; [|done].
  intros [= <- <-]. split; [by apply caches_separate_alloc |].
  intros f k c ts' Hk. apply table_at_mutate_ne. cbn in Hk.
  destruct Hsep as [_ Hc]. destruct (Hc _ _ _ Hk) as [Hlt _]. lia.
Qed.

(** X7. On a hit within the TTL the caller receives a copy of its own: a
    new object equal to the stored table, held by no cache, so that
    nothing done to it changes a table of the [lru_cache] store or of
    [_cache]; no request is sent. *)
Theorem call_api_ttl_hit_returns_private_copy year code geo ttl now st df ts :
  caches_separate st →
  _cache st !! request_key year code geo = Some (df, ts) →
  (now - ts < timedelta_minutes ttl)%Z →
  ∃ st',
    call_api_ttl API_KEY upstream year code geo ttl now st
      = (Ok (length (heap st)), st') ∧
    sent st' = sent st ∧
    table_at st' (length (heap st)) = table_at st df ∧
    ∀ f,
      (∀ k l, (k, l) ∈ lru st' →
         table_at (mutate (length (heap st)) f st') l = table_at st' l) ∧
      (∀ k c ts', _cache st' !! k = Some (c, ts') →
         table_at (mutate (length (heap st)) f st') c = table_at st' c).
Proof.
  intros [Hlru Hc] Hhit Hage. rewrite call_api_ttl_eq, Hhit.
  apply Z.ltb_lt in Hage. rewrite Hage.
  eexists. split; [reflexivity |]. split; [done |].
  split; [apply table_at_alloc_new |].
  intros f. split.
  - intros k l Hkl. apply table_at_mutate_ne. cbn in Hkl.
    specialize (Hlru _ _ Hkl). lia.
  - intros k c ts' Hk. apply table_at_mutate_ne. cbn in Hk.
    destruct (Hc _ _ _ Hk) as [Hlt _]. lia.
Qed.

(** X8. A call of [call_api_ttl] writes [_cache] at the key of its own
    request and nowhere else, never touches [_multi_cache], and leaves
    [_cache] entirely as it was when it raises: a failed refresh neither
    stores nor removes anything. *)
Theorem call_api_ttl_writes_only_its_key year code geo ttl now st res st' :
  call_api_ttl API_KEY upstream year code geo ttl now st = (res, st') →
  _multi_cache st' = _multi_cache st ∧
  (∀ k, k ≠ request_key year code geo → _cache st' !! k = _cache st !! k) ∧
  (∀ e, res = Raise e → _cache st' = _cache st).
Proof.
  rewrite call_api_ttl_eq.
  assert (Hrefresh :
    call_api_ttl_refresh API_KEY upstream (request_key year code geo)
      year code geo now st = (res, st') →
    _multi_cache st' = _multi_cache st ∧
    (∀ k, k ≠ request_key year code geo → _cache st' !! k = _cache st !! k) ∧
    (∀ e, res = Raise e → _cache st' = _cache st)).
  { rewrite call_api_ttl_refresh_eq.
    destruct (call_api API_KEY upstream year code geo st) as [[df|e] s] eqn:E;
      intros [= <- <-];
      apply call_api_same_ttl_caches in E as [Hc Hm].
    - cbn. split_and!; [done | | done].
      intros k Hk. rewrite lookup_insert_ne by done. by rewrite Hc.
    - split_and!; [done | by intros; rewrite Hc | done]. }
  destruct (_cache st !! request_key year code geo) as [[df ts]|]; [|done].
  destruct (_ <? _)%Z; [|done].
  intros [= <- <-]. by split_and!.
Qed.

(** X9. A table that [call_api_ttl] has fetched and filed is never
    fetched again by the next call for the same request, however long
    after: when the entry has expired, [call_api] answers from the
    [lru_cache] store, the caller receives the object of the first call
    and nothing is sent. *)
Theorem ttl_expiry_does_not_refetch year code geo ttl1 now1 st r1 st1 ttl2 now2 :
  _cache st !! request_key year code geo = None →
  call_api_ttl API_KEY upstream year code geo ttl1 now1 st = (Ok r1, st1) →
  (timedelta_minutes ttl2 ≤ now2 - now1)%Z →
  ∃ st2,
    call_api_ttl API_KEY upstream year code geo ttl2 now2 st1 = (Ok r1, st2) ∧
    sent st2 = sent st1.
Proof.
  intros Hmiss H Hage. rewrite call_api_ttl_eq, Hmiss in H.
  pose proof (call_api_ttl_refresh_returns_stored_object _ _ _ _ _ _ _ _ _ _ H) as Hlru.
  rewrite call_api_ttl_refresh_eq in H.
  destruct (call_api API_KEY upstream year code geo st) as [[df|e] s]; [|discriminate].
  injection H as <- <-.
  destruct (call_api_ttl_expired_answers_from_lru API_KEY upstream year code geo
              ttl2 now2 _ _ (length (heap s)) now1 Hlru) as (st2 & H2 & Hs & _).
  - cbn. apply lookup_insert_eq.
  - done.
  - by exists st2.
Qed.

(** X10. The [lru_cache] store never outgrows its [maxsize]: if it holds
    at most 4096 entries, one per key, it still does after any call of
    [call_api_ttl], whatever the outcome. *)
Theorem lru_store_stays_bounded year code geo ttl now st res st' :
  lru_bounded st →
  call_api_ttl API_KEY upstream year code geo ttl now st = (res, st') →
  lru_bounded st'.
Proof.
  intros [Hlen Hnd].
  assert (Hcall : ∀ res s,
    call_api API_KEY upstream year code geo st = (res, s) → lru_bounded s).
  { intros res0 s H. apply call_api_cases in H as
      [(v & Hfind & _ & ->)|[(_ & e & _ & (_ & Hl & _))|(Hfind & _ & t & _ & Hl & _)]].
    - split; cbn [lru set_lru].
      + pose proof (lru_remove_length _ _ _ Hfind). simpl. lia.
      + simpl. apply NoDup_cons. split; [apply lru_remove_keys |].
        eapply sublist_NoDup; [exact Hnd |].
        apply (fmap_sublist fst), lru_remove_sublist.
    - unfold lru_bounded. by rewrite Hl.
    - unfold lru_bounded. rewrite Hl. split.
      + rewrite length_take. lia.
      + rewrite fmap_take. eapply sublist_NoDup; [| apply sublist_take].
        simpl. apply NoDup_cons. split; [by apply lru_find_None_keys | done]. }
  rewrite call_api_ttl_eq.
  assert (Hrefresh :
    call_api_ttl_refresh API_KEY upstream (request_key year code geo)
      year code geo now st = (res, st') → lru_bounded st').
  { rewrite call_api_ttl_refresh_eq.
    destruct (call_api API_KEY upstream year code geo st) as [[df|e] s] eqn:E;
      intros [= <- <-]; exact (Hcall _ _ eq_refl). }
  destruct (_cache st !! request_key year code geo) as [[df ts]|]; [|done].
  destruct (_ <? _)%Z; [|done].
  by intros [= <- <-].
Qed.

End TtlCache.
